(** * The Dask benchmark notebook of fMKS (ch-benchmark.ipynb)

    The notebook defines one function, [time_ch], and two timing cells that
    call it under [%timeit] for the worker counts 8, 4, 2, 1, once with the
    threaded scheduler and once with the multiprocessing scheduler.

    The notebook's collaborators ([generate_cahn_hilliard_data], the
    [compute] method of a Dask array, the scheduler callables and the
    [%timeit] magic) are taken as parameters of the embedding.  Python
    exceptions are modelled by an outcome type, the interpreter's output and
    the calls made to the collaborators by a trace of events.

    The first part of the file holds the definitions: the notebook, then
    the computation model the specification describes for the code the
    notebook calls, then concrete environments to run both.  The second
    part holds the lemmas and the theorems. *)

From stdpp Require Import base numbers list strings pretty gmap sorting.

(** * Part I: definitions *)

(** ** Outcomes: a Python call returns a value or raises *)

Inductive outcome (E A : Type) : Type :=
| Ok (a : A)
| Raised (e : E).
Arguments Ok {E A} a.
Arguments Raised {E A} e.

(** Python values the harness itself handles. *)
Inductive pyval : Type :=
| PyNone
| PyInt (n : Z)
| PyStr (s : string).

(** [str(v)] as [print] applies it to each argument. *)
Definition py_str (v : pyval) : string :=
  match v with
  | PyNone => "None"
  | PyInt n => pretty n
  | PyStr s => s
  end.

(** [print(a, b, ...)]: the arguments' [str], separated by one space. *)
Fixpoint print_line (args : list pyval) : string :=
  match args with
  | [] => ""
  | [v] => py_str v
  | v :: rest => py_str v +:+ " " +:+ print_line rest
  end.

(** A shape or a chunk specification: a 3-tuple of integers. *)
Definition dims : Type := Z * Z * Z.

(** [generate_cahn_hilliard_data] returns the tuple
    [(microstructure, response)]; [output] names its two positions. *)
Inductive output : Type := Microstructure | Response.

Definition position (o : output) : nat :=
  match o with Microstructure => 0 | Response => 1 end.

(** [p[position o]] *)
Definition item {L : Type} (o : output) (p : L * L) : L :=
  match o with Microstructure => fst p | Response => snd p end.

(** The two scheduler backends the cells compare. *)
Inductive scheduler_kind : Type := THREADED | MULTIPROCESS.

(** ** Events: what a run of the notebook does, in order *)

Inductive event (G : Type) : Type :=
| EvPrint (args : list pyval)
| EvTimerStart
| EvTimerStop
| EvTimeitReport (loops repeat : nat)
| EvGenerate (shape chunks : dims) (n_steps : Z)
| EvCompute (o : output) (num_workers : Z) (get : G).
Arguments EvPrint {G} args.
Arguments EvTimerStart {G}.
Arguments EvTimerStop {G}.
Arguments EvTimeitReport {G} loops repeat.
Arguments EvGenerate {G} shape chunks n_steps.
Arguments EvCompute {G} o num_workers get.

(** ** The calibration of [%timeit]

    Without [-n], [%timeit] runs
    [for index in range(0, 10): number = 10 ** index;
       if timer.timeit(number) >= 0.2: break]
    before the runs it reports on.  When it settles on [loops] calls per
    run, the numbers of calls it has tried, one timed run each, are the
    powers of ten up to [loops]: only [1] for the notebook's "1 loop". *)
Fixpoint calibration_from (tries number loops : nat) : list nat :=
  if loops <=? number then [loops]
  else
    match tries with
    | 0 => [loops]
    | S tries' => number :: calibration_from tries' (10 * number) loops
    end.

Definition calibration (loops : nat) : list nat := calibration_from 9 1 loops.

(** The numbers of calls of all the timed runs of one [%timeit], in order:
    the calibration runs, then the [repeat] reported runs. *)
Definition run_numbers (loops repeat : nat) : list nat :=
  calibration loops ++ replicate repeat loops.

(** The calls of the statement one [%timeit] makes. *)
Definition calls_per_trial (loops repeat : nat) : nat :=
  sum_list (run_numbers loops repeat).

Declare Scope run_scope.
Delimit Scope run_scope with run.

Section Harness.
(** [W]: the state of everything outside the notebook (the Dask runtime,
    the random generator, the machine); [E]: exceptions; [G]: scheduler
    callables; [Lazy]: lazy Dask arrays; [Field]: realized arrays. *)
Context {W E G Lazy Field : Type}.

(** The collaborators.  Each may change the outside state and may raise. *)
Variable generate_cahn_hilliard_data :
  dims -> dims -> Z -> W -> outcome E (Lazy * Lazy) * W.
Variable compute : Lazy -> Z -> G -> W -> outcome E Field * W.
Variable dask_threaded_get dask_multiprocessing_get : G.

(** [%timeit] is given no [-n] option: it settles on a number [loops] of
    calls per timed run by trying 1, 10, 100, ... calls until a timed run
    takes long enough, then makes [repeat] timed runs of [loops] calls and
    reports the best (the notebook's output: 1 loop, best of 3).  The
    clock is not modelled: [loops] is the number the magic settled on. *)
Variable loops repeat : nat.

(** A computation threads the outside state, may raise, and appends to the
    trace. *)
Definition M (A : Type) : Type := W -> outcome E A * W * list (event G).

Definition ret {A} (a : A) : M A := fun w => (Ok a, w, []).

Definition bind {A B} (m : M A) (f : A -> M B) : M B :=
  fun w =>
    match m w with
    | (Ok a, w1, t1) =>
        match f a w1 with
        | (r, w2, t2) => (r, w2, t1 ++ t2)
        end
    | (Raised e, w1, t1) => (Raised e, w1, t1)
    end.

Definition emit (ev : event G) : M unit := fun w => (Ok tt, w, [ev]).

Local Notation "x <- c ;; k" := (bind c (fun x => k))
  (at level 100, c at next level, right associativity) : run_scope.
Local Notation "c ;;; k" := (bind c (fun _ => k))
  (at level 100, right associativity) : run_scope.
Local Open Scope run_scope.

Definition outcome_of {A} (r : outcome E A * W * list (event G)) : outcome E A := r.1.1.
Definition trace_of {A} (r : outcome E A * W * list (event G)) : list (event G) := r.2.

(** Calls to the collaborators, recorded in the trace. *)
Definition call_generate (shape chunks : dims) (n_steps : Z) : M (Lazy * Lazy) :=
  fun w =>
    match generate_cahn_hilliard_data shape chunks n_steps w with
    | (r, w1) => (r, w1, [EvGenerate shape chunks n_steps])
    end.

Definition call_compute (p : Lazy * Lazy) (o : output) (num_workers : Z) (get : G)
  : M Field :=
  fun w =>
    match compute (item o p) num_workers get w with
    | (r, w1) => (r, w1, [EvCompute o num_workers get])
    end.

(** ** [time_ch]

    [generate_cahn_hilliard_data(shape, chunks=chunks, n_steps=n_steps)[1]
       .compute(num_workers=num_workers, get=get)]
    is an expression statement: its value is dropped, and the function
    falls off its end, which returns [None]. *)
Definition time_ch (num_workers : Z) (get : G) (shape chunks : dims) (n_steps : Z)
  : M pyval :=
  p <- call_generate shape chunks n_steps ;;
  _field <- call_compute p Response num_workers get ;;
  ret PyNone.

(** The default arguments of [time_ch]. *)
Definition default_shape : dims := (48, 200, 200)%Z.
Definition default_chunks : dims := (1, 200, 200)%Z.
Definition default_n_steps : Z := 100%Z.

(** [time_ch(n_proc, get)]: the call the timing cells make. *)
Definition time_ch_default (num_workers : Z) (get : G) : M pyval :=
  time_ch num_workers get default_shape default_chunks default_n_steps.

(** ** [%timeit] *)

Fixpoint iterate {A} (n : nat) (stmt : M A) : M unit :=
  match n with
  | 0 => ret tt
  | S n' => stmt ;;; iterate n' stmt
  end.

Fixpoint for_each {A} (xs : list A) (body : A -> M unit) : M unit :=
  match xs with
  | [] => ret tt
  | x :: rest => body x ;;; for_each rest body
  end.

(** One timed run, [timer.timeit(number)]: the timer is read before and
    after [number] calls of the statement. *)
Definition timed_run {A} (number : nat) (stmt : M A) : M unit :=
  emit EvTimerStart ;;; iterate number stmt ;;; emit EvTimerStop.

(** [%timeit stmt]: the calibration runs, then [timer.repeat(repeat,
    loops)], that is [repeat] timed runs of [loops] calls, then one report
    line.  The statement is run in every calibration run as well, and an
    exception it raises is not caught. *)
Definition timeit {A} (stmt : M A) : M unit :=
  for_each (calibration loops) (fun number => timed_run number stmt) ;;;
  iterate repeat (timed_run loops stmt) ;;;
  emit (EvTimeitReport loops repeat).

(** ** The timing cells *)

(** The body of the [for] loops: the label line, then the timing. *)
Definition trial (label : string) (get : G) (n_proc : Z) : M unit :=
  emit (EvPrint [PyInt n_proc; PyStr label]) ;;;
  timeit (time_ch_default n_proc get).

Definition timing_loop (label : string) (get : G) (n_procs : list Z) : M unit :=
  for_each n_procs (trial label get).

(** The tuple [(8, 4, 2, 1)] both cells loop over. *)
Definition worker_counts : list Z := [8; 4; 2; 1]%Z.

Definition threaded_cell : M unit :=
  timing_loop "thread(s)" dask_threaded_get worker_counts.

Definition multiprocessing_cell : M unit :=
  timing_loop "process(es)" dask_multiprocessing_get worker_counts.

(** The notebook run from top to bottom; a cell that raises stops it. *)
Definition notebook : M unit :=
  threaded_cell ;;; multiprocessing_cell.

(** ** Variations of the collaborators *)

(** [compute] with its field passed through [post]: what a harness that
    looked at the realized field could tell apart. *)
Definition with_field {F' : Type} (post : Field -> F')
  (l : Lazy) (num_workers : Z) (get : G) (w : W) : outcome E F' * W :=
  match compute l num_workers get w with
  | (Ok f, w1) => (Ok (post f), w1)
  | (Raised e, w1) => (Raised e, w1)
  end.

(** [generate_cahn_hilliard_data] with another microstructure in position 0
    of the tuple it returns. *)
Definition with_microstructure (other : Lazy -> Lazy)
  (shape chunks : dims) (n_steps : Z) (w : W) : outcome E (Lazy * Lazy) * W :=
  match generate_cahn_hilliard_data shape chunks n_steps w with
  | (Ok p, w1) => (Ok (other (fst p), snd p), w1)
  | (Raised e, w1) => (Raised e, w1)
  end.

(** ** Predicates on the traces of a computation *)

(** [P] holds of the trace when the computation returns, [F] when it
    raises. *)
Definition yields {A} (m : M A) (P F : list (event G) -> Prop) : Prop :=
  forall w,
    match m w with
    | (Ok _, _, t) => P t
    | (Raised _, _, t) => F t
    end.

(** Every event the computation emits satisfies [P]. *)
Definition emits_only {A} (m : M A) (P : event G -> Prop) : Prop :=
  forall w, Forall P (trace_of (m w)).

End Harness.

(** ** Reading a trace *)

(** The scheduler backend a label line names. *)
Definition kind_of_label (s : string) : option scheduler_kind :=
  if String.eqb s "thread(s)" then Some THREADED
  else if String.eqb s "process(es)" then Some MULTIPROCESS
  else None.

Definition parse_label (args : list pyval) : option (scheduler_kind * Z) :=
  match args with
  | [PyInt n; PyStr s] =>
      match kind_of_label s with
      | Some k => Some (k, n)
      | None => None
      end
  | _ => None
  end.

Section Traces.
Context {G : Type}.
Implicit Types (t : list (event G)) (ev : event G).

(** Calls to the collaborators, as opposed to output and timer events. *)
Definition is_call ev : bool :=
  match ev with
  | EvGenerate _ _ _ | EvCompute _ _ _ => true
  | _ => false
  end.

Definition is_timer ev : bool :=
  match ev with EvTimerStart | EvTimerStop => true | _ => false end.

(** Events that print nothing. *)
Definition is_quiet ev : bool := is_call ev || is_timer ev.





(** The rows of the printed table: a label line followed by the report
    line of its [%timeit]. *)
Fixpoint rows_from (pending : option (scheduler_kind * Z)) t
  : list (scheduler_kind * Z) :=
  match t with
  | [] => []
  | EvPrint args :: t' => rows_from (parse_label args) t'
  | EvTimeitReport _ _ :: t' =>
      match pending with
      | Some r => r :: rows_from None t'
      | None => rows_from None t'
      end
  | _ :: t' => rows_from pending t'
  end.

Definition report_rows t : list (scheduler_kind * Z) := rows_from None t.

(** The label lines alone, whether or not a report line follows. *)
Fixpoint label_lines t : list (scheduler_kind * Z) :=
  match t with
  | [] => []
  | EvPrint args :: t' =>
      match parse_label args with
      | Some r => r :: label_lines t'
      | None => label_lines t'
      end
  | _ :: t' => label_lines t'
  end.

(** The text the notebook shows for the [print] calls. *)
Fixpoint printed t : list string :=
  match t with
  | [] => []
  | EvPrint args :: t' => print_line args :: printed t'
  | _ :: t' => printed t'
  end.

(** The targets of the [compute] calls, in order. *)
Fixpoint computed t : list output :=
  match t with
  | [] => []
  | EvCompute o _ _ :: t' => o :: computed t'
  | _ :: t' => computed t'
  end.

(** One completed timed run around the calls [body]. *)
Definition run_trace (body : list (event G)) : list (event G) :=
  EvTimerStart :: body ++ [EvTimerStop].

(** The two calls one [time_ch(n_proc, get)] makes when nothing raises. *)
Definition call_body (n_proc : Z) (get : G) : list (event G) :=
  [EvGenerate default_shape default_chunks default_n_steps;
   EvCompute Response n_proc get].

(** What a timed run of [number] calls brackets in the cells: [number]
    whole calls. *)
Definition timed_body (number : nat) (n_proc : Z) (get : G) : list (event G) :=
  concat (replicate number (call_body n_proc get)).

(** Completed timed runs, one for each number of calls in [numbers]. *)
Definition runs_trace (numbers : list nat) (n_proc : Z) (get : G) : list (event G) :=
  concat (map (fun number => run_trace (timed_body number n_proc get)) numbers).

(** The trace of a trial in which nothing raises. *)
Definition trial_trace (loops repeat : nat) (label : string) (get : G) (n_proc : Z)
  : list (event G) :=
  EvPrint [PyInt n_proc; PyStr label]
  :: runs_trace (run_numbers loops repeat) n_proc get
  ++ [EvTimeitReport loops repeat].

(** The trace of a trial that raises in a timed run, after the timed runs
    of [done] calls each (calibration runs included) and after the calls
    [t] of the run that raises. *)
Definition failed_trial_trace (label : string) (get : G) (n_proc : Z)
  (done : list nat) (t : list (event G)) : list (event G) :=
  EvPrint [PyInt n_proc; PyStr label]
  :: runs_trace done n_proc get
  ++ EvTimerStart :: t.

(** The calls of the cells: always the default arguments, always the
    response. *)
Definition cell_event (ev : event G) : Prop :=
  match ev with
  | EvGenerate shape chunks n_steps =>
      shape = default_shape /\ chunks = default_chunks /\ n_steps = default_n_steps
  | EvCompute o _ _ => o = Response
  | _ => True
  end.

End Traces.

(** ** The shape of the printed table *)

Definition strictly_descending (l : list Z) : Prop :=
  StronglySorted (fun a b => (b < a)%Z) l.

(** All THREADED rows together and before the MULTIPROCESS rows, which are
    together too, and the worker counts strictly descending inside each
    group. *)
Definition grouped_descending (rows : list (scheduler_kind * Z)) : Prop :=
  exists th mp : list Z,
    rows = map (pair THREADED) th ++ map (pair MULTIPROCESS) mp
    /\ strictly_descending th /\ strictly_descending mp.

(** The table of a run in which nothing raises. *)
Definition full_table : list (scheduler_kind * Z) :=
  [(THREADED, 8); (THREADED, 4); (THREADED, 2); (THREADED, 1);
   (MULTIPROCESS, 8); (MULTIPROCESS, 4); (MULTIPROCESS, 2); (MULTIPROCESS, 1)]%Z.

(** ** The computation model the specification describes

    [generate_cahn_hilliard_data] and the schedulers are called by the
    notebook and defined elsewhere.  The definitions below follow the
    specification's description of them: the chunked task graph, its
    construction, and its execution by a pool of workers. *)

(** Modelled from the spec: the error taxonomy of its section 7, which the
    notebook does not define; [PyError] stands for any exception of the
    Python runtime or of a library. *)
Inductive error : Type :=
| ConfigurationError
| ExecutionError
| WorkerFailure (cause : string)
| BenchmarkError (worker_count : Z) (kind : scheduler_kind) (cause : error)
| PyError (name : string).

(** Modelled from the spec: SimulationParams, the input of graph
    construction in [generate_cahn_hilliard_data]. *)
Record SimulationParams : Type := {
  p_shape : dims;
  p_chunk : dims;
  p_n_steps : Z
}.

(** Modelled from the spec: the remainder policy an implementation declares
    for volumes the chunks do not divide; the chunked-array primitive is
    not part of the notebook. *)
Inductive remainder_policy : Type :=
| ExactOnly     (* only evenly dividing chunks are supported *)
| RaggedLast.   (* a shorter last block along an axis is supported *)

(** Modelled from the spec: the block sizes along one axis of extent [d]
    cut into blocks of [bd]; a remainder makes one shorter last block. *)
Definition block_sizes (d bd : Z) : list Z :=
  replicate (Z.to_nat (d / bd)) bd
  ++ (if (d mod bd =? 0)%Z then [] else [(d mod bd)%Z]).

(** Modelled from the spec: the number of blocks along one axis, as the
    chunked-array primitive cuts it. *)
Definition n_blocks (d bd : Z) : nat := length (block_sizes d bd).

(** Modelled from the spec: the grid of chunk blocks the volume is
    partitioned into, as the number of blocks along each axis. *)
Definition grid : Type := nat * nat * nat.

Definition grid_of (shape chunk : dims) : grid :=
  (n_blocks shape.1.1 chunk.1.1, n_blocks shape.1.2 chunk.1.2, n_blocks shape.2 chunk.2).

(** Modelled from the spec: the number of chunks, the units of parallel
    work. *)
Definition chunk_count (gr : grid) : nat := gr.1.1 * gr.1.2 * gr.2.

(** Modelled from the spec: even decomposability of VolumeShape by
    ChunkSpec: every chunk divides its axis, no remainder block anywhere. *)
Definition divides_evenly (shape chunk : dims) : Prop :=
  (shape.1.1 mod chunk.1.1 = 0 /\ shape.1.2 mod chunk.1.2 = 0
   /\ shape.2 mod chunk.2 = 0)%Z.

(** Modelled from the spec: the ChunkSpec invariant broken: some axis on
    which the chunk is larger than the volume. *)
Definition chunk_exceeds (chunk shape : dims) : Prop :=
  (shape.1.1 < chunk.1.1 \/ shape.1.2 < chunk.1.2 \/ shape.2 < chunk.2)%Z.

(** Modelled from the spec: one axis of what graph construction accepts:
    a positive chunk, no larger than the volume, that tiles it under the
    declared remainder policy. *)
Definition axis_ok (pol : remainder_policy) (d bd : Z) : bool :=
  (0 <? bd)%Z && (bd <=? d)%Z
  && match pol with
     | ExactOnly => (d mod bd =? 0)%Z
     | RaggedLast => true
     end.

(** Modelled from the spec: what graph construction accepts (VolumeShape,
    ChunkSpec and n_steps invariants of section 3 and the error conditions
    of section 4.1). *)
Definition valid_params (pol : remainder_policy) (p : SimulationParams) : bool :=
  axis_ok pol (p_shape p).1.1 (p_chunk p).1.1
  && axis_ok pol (p_shape p).1.2 (p_chunk p).1.2
  && axis_ok pol (p_shape p).2 (p_chunk p).2
  && (1 <=? p_n_steps p)%Z.

(** Modelled from the spec: the position of a chunk in the grid, the
    chunks being numbered row-major. *)
Definition coords (gr : grid) (c : nat) : nat * nat * nat :=
  (c / (gr.1.2 * gr.2), (c / gr.2) mod gr.1.2, c mod gr.2).

Definition dist (a b : nat) : nat := (a - b) + (b - a).

(** Modelled from the spec: spatially adjacent blocks, the ones a step
    update reads boundaries from: one block apart along exactly one
    axis. *)
Definition adjacent (gr : grid) (c c' : nat) : bool :=
  match coords gr c, coords gr c' with
  | (i, j, k), (i', j', k') => dist i i' + dist j j' + dist k k' =? 1
  end.

Definition neighbours (gr : grid) (c : nat) : list nat :=
  List.filter (adjacent gr c) (seq 0 (chunk_count gr)).

(** Modelled from the spec: the task nodes of the ComputationGraph:
    initialization of a chunk, one step update of a chunk, and the final
    assembly of an output field. *)
Inductive task : Type :=
| TInit (c : nat)
| TStep (c t : nat)
| TAssemble (o : output).

(** Modelled from the spec: a node of the graph, its task and the indices
    of the nodes it depends on. *)
Record node : Type := Node {
  node_task : task;
  node_deps : list nat
}.

(** Modelled from the spec: the ComputationGraph, an arena of nodes
    addressed by their index, with its two outputs. *)
Record ComputationGraph : Type := {
  g_nodes : list node;
  g_response : nat;
  g_microstructure : nat
}.

(** Modelled from the spec: the node that holds an output of the graph. *)
Definition output_id (g : ComputationGraph) (o : output) : nat :=
  match o with
  | Response => g_response g
  | Microstructure => g_microstructure g
  end.

(** Modelled from the spec: the node with index [i] of the graph built for
    [C] chunks and [n] steps.  Indices below [C] initialize chunk [i];
    index [t * C + c] with [1 <= t <= n] is step [t] of chunk [c], which
    depends on step [t - 1] of the chunk itself and of its neighbours; then
    come the assembly of the response from the last step, and the assembly
    of the microstructure from the initial chunks. *)
Definition node_at (gr : grid) (n : nat) (i : nat) : node :=
  let C := chunk_count gr in
  if i <? C then Node (TInit i) []
  else if i <? (n + 1) * C then
    Node (TStep (i mod C) (i / C))
         ((i - C) :: map (fun c' => (i / C - 1) * C + c') (neighbours gr (i mod C)))
  else if i =? (n + 1) * C then
    Node (TAssemble Response) (map (fun c => n * C + c) (seq 0 C))
  else Node (TAssemble Microstructure) (seq 0 C).

(** Modelled from the spec: the size of the built graph: one
    initialization per chunk, one node per chunk and step, and the two
    assemblies. *)
Definition node_count (gr : grid) (n : nat) : nat := (n + 1) * chunk_count gr + 2.

(** Modelled from the spec: the graph built for a grid and a number of
    steps. *)
Definition graph_of (gr : grid) (n : nat) : ComputationGraph :=
  let C := chunk_count gr in
  {| g_nodes := map (node_at gr n) (seq 0 (node_count gr n));
     g_response := (n + 1) * C;
     g_microstructure := (n + 1) * C + 1 |}.

(** Every dependency of a node has a smaller index. *)
Definition wf_graph (g : list node) : Prop :=
  forall i nd, g !! i = Some nd -> Forall (fun d => d < i) (node_deps nd).

(** Modelled from the spec: build, the graph construction done by
    [generate_cahn_hilliard_data].  It checks the parameters and lays out
    the nodes; it takes no step-update function and no array. *)
Definition build (pol : remainder_policy) (p : SimulationParams)
  : outcome error ComputationGraph :=
  if valid_params pol p
  then Ok (graph_of (grid_of (p_shape p) (p_chunk p)) (Z.to_nat (p_n_steps p)))
  else Raised ConfigurationError.

(** Modelled from the spec: [generate_cahn_hilliard_data] as the
    collaborator of [time_ch]: the two lazy outputs of the built graph.
    It leaves the outside state as it is. *)
Definition model_generate {W : Type} (pol : remainder_policy)
  (shape chunks : dims) (n_steps : Z) (w : W)
  : outcome error ((ComputationGraph * output) * (ComputationGraph * output)) * W :=
  match build pol {| p_shape := shape; p_chunk := chunks; p_n_steps := n_steps |} with
  | Ok g => (Ok ((g, Microstructure), (g, Response)), w)
  | Raised e => (Raised e, w)
  end.

(** *** Execution by a pool of workers *)

Section Execution.
(** [V]: chunk states and fields; [B]: their serialized form. *)
Context {V B : Type}.

(** The collaborators of the specification's section 6: the initial state
    of a chunk, the step-update function (it may raise, with a cause), the
    reassembly of blocks, and the serialization used across process
    boundaries. *)
Variable init : nat -> V.
Variable update : V -> list V -> outcome string V.
Variable assemble : list V -> V.
Variable encode : V -> B.
Variable decode : B -> option V.

(** Modelled from the spec: the state of an execution request: the values
    of the finished nodes, and how many step updates have been run. *)
Record machine : Type := Machine {
  m_store : gmap nat V;
  m_steps : nat
}.

(** Modelled from the spec: the state when the graph has just been built:
    nothing realized, no step run. *)
Definition fresh : machine := {| m_store := ∅; m_steps := 0 |}.

(** Modelled from the spec: the task nodes that are step updates, the
    floating-point work of a simulation. *)
Definition is_step (tk : task) : bool :=
  match tk with TStep _ _ => true | _ => false end.

(** Modelled from the spec: what a task node computes from the values of
    its dependencies; a step update that raises is a WorkerFailure. *)
Definition run_op (tk : task) (ins : list V) : outcome error V :=
  match tk with
  | TInit c => Ok (init c)
  | TStep _ _ =>
      match ins with
      | own :: nbrs =>
          match update own nbrs with
          | Ok v => Ok v
          | Raised cause => Raised (WorkerFailure cause)
          end
      | [] => Raised (WorkerFailure "step without state")
      end
  | TAssemble _ => Ok (assemble ins)
  end.

(** Modelled from the spec: how a value reaches a worker and comes back.
    Threads share one memory; processes get their inputs and return their
    outputs by value, serialized. *)
Definition pass (k : scheduler_kind) (v : V) : option V :=
  match k with
  | THREADED => Some v
  | MULTIPROCESS => decode (encode v)
  end.

(** Modelled from the spec: a task as a worker of kind [k] runs it: the
    inputs reach the worker, the result comes back. *)
Definition run_task (k : scheduler_kind) (tk : task) (ins : list V) : outcome error V :=
  match mapM (pass k) ins with
  | None => Raised (WorkerFailure "transport")
  | Some ins' =>
      match run_op tk ins' with
      | Ok v =>
          match pass k v with
          | Some v' => Ok v'
          | None => Raised (WorkerFailure "transport")
          end
      | Raised e => Raised e
      end
  end.

(** Modelled from the spec: the inputs of a node, read from the finished
    nodes it depends on. *)
Definition gather (st : gmap nat V) (deps : list nat) : option (list V) :=
  mapM (fun d => st !! d) deps.

(** Modelled from the spec: a worker runs node [i] on the snapshot [snap]
    of the finished nodes.  [None]: the node cannot be dispatched (no such
    node, or a dependency is not finished).  The flag tells whether it was
    a step update. *)
Definition run_node (k : scheduler_kind) (g : list node) (snap : gmap nat V) (i : nat)
  : option (outcome error V * bool) :=
  match g !! i with
  | None => None
  | Some nd =>
      match gather snap (node_deps nd) with
      | None => None
      | Some ins => Some (run_task k (node_task nd) ins, is_step (node_task nd))
      end
  end.

(** Modelled from the spec: the nodes of one batch run concurrently: each
    reads the snapshot taken when the batch was dispatched.  A node that
    is finished, or taken already, is not dispatched again.  The first
    failure aborts the request. *)
Fixpoint run_batch (k : scheduler_kind) (g : list node) (snap : gmap nat V)
  (m : machine) (batch : list nat) : option (outcome error machine) :=
  match batch with
  | [] => Some (Ok m)
  | i :: rest =>
      match m_store m !! i with
      | Some _ => None
      | None =>
          match run_node k g snap i with
          | None => None
          | Some (Raised e, _) => Some (Raised e)
          | Some (Ok v, step) =>
              run_batch k g snap
                {| m_store := <[i := v]> (m_store m);
                   m_steps := m_steps m + (if step then 1 else 0) |}
                rest
          end
      end
  end.

(** Modelled from the spec: a batch a pool of [w] workers can take: some
    nodes, at most [w]. *)
Definition batch_ok (w : nat) (batch : list nat) : bool :=
  bool_decide (batch <> [] /\ length batch <= w).

(** Modelled from the spec: the scheduler's choices are the schedule, a
    list of batches; a schedule the pool cannot follow is no execution
    ([None]). *)
Fixpoint run_schedule (k : scheduler_kind) (w : nat) (g : list node)
  (m : machine) (sched : list (list nat)) : option (outcome error machine) :=
  match sched with
  | [] => Some (Ok m)
  | batch :: rest =>
      if batch_ok w batch then
        match run_batch k g (m_store m) m batch with
        | Some (Ok m') => run_schedule k w g m' rest
        | r => r
        end
      else None
  end.

(** Modelled from the spec: SchedulerAdapter.execute for a pool of [w]
    workers of kind [k] following [sched].  A request with a worker count
    below 1 fails with [ExecutionError] before anything is scheduled;
    otherwise the result is the realized output [o], or the failure of a
    worker.  [None]: [sched] is not an execution that realizes [o]. *)
Definition execute (k : scheduler_kind) (w : nat) (g : ComputationGraph) (o : output)
  (sched : list (list nat)) : option (outcome error V) :=
  if w <? 1 then Some (Raised ExecutionError)
  else
    match run_schedule k w (g_nodes g) fresh sched with
    | None => None
    | Some (Raised e) => Some (Raised e)
    | Some (Ok m) =>
        match m_store m !! output_id g o with
        | Some v => Some (Ok v)
        | None => None
        end
    end.

(** Modelled from the spec: the number of step updates run since the graph
    was built, once the pool has followed [sched]. *)
Definition steps_run (k : scheduler_kind) (w : nat) (g : ComputationGraph)
  (sched : list (list nat)) : option nat :=
  match run_schedule k w (g_nodes g) fresh sched with
  | Some (Ok m) => Some (m_steps m)
  | _ => None
  end.

(** Modelled from the spec: the schedule of a single worker that takes the
    nodes in index order. *)
Definition sequential (g : ComputationGraph) : list (list nat) :=
  map (fun i => [i]) (seq 0 (length (g_nodes g))).

(** *** What executions keep true *)

(** Modelled from the spec: inputs and outputs cross the isolation boundary
    by value: what a process decodes is what was encoded. *)
Definition faithful : Prop := forall v, decode (encode v) = Some v.

(** Modelled from the spec: a step-update function that returns on every
    input (the collaborator as section 6 describes it, with no failure
    injected). *)
Definition total_update : Prop := forall own nbrs, exists v, update own nbrs = Ok v.

(** Every finished node of [st'] holds what its task computes from the
    values of its dependencies in [st]. *)
Definition justified_by (g : list node) (st st' : gmap nat V) : Prop :=
  forall i v, st' !! i = Some v ->
    exists nd ins, g !! i = Some nd /\ gather st (node_deps nd) = Some ins
                   /\ run_op (node_task nd) ins = Ok v.

Definition justified (g : list node) (st : gmap nat V) : Prop := justified_by g st st.

Definition is_step_id (g : list node) (i : nat) : bool :=
  match g !! i with
  | Some nd => is_step (node_task nd)
  | None => false
  end.

Definition step_ids (g : list node) (X : gset nat) : gset nat :=
  filter (fun i => is_step_id g i = true) X.

(** The counter equals the number of finished step nodes. *)
Definition counted (g : list node) (m : machine) : Prop :=
  m_steps m = size (step_ids g (dom (m_store m))).

End Execution.

(** ** Concrete environments for running the definitions *)

(** *** A simulated environment for the notebook *)

(** Scheduler callables: two pool schedulers, which refuse an empty pool
    with an error of their own (as Python's pools do, with a ValueError),
    and one that runs the graph in the calling thread whatever
    [num_workers] says (as Dask's synchronous scheduler does). *)
Inductive sim_get : Type := ThreadedGet | MultiprocessingGet | SyncGet.

(** The simulated outside state counts the [compute] calls made so far.
    Lazy and realized arrays are identified by the output they stand
    for. *)
Definition sim_generate (shape chunks : dims) (n_steps : Z) (w : nat)
  : outcome error (output * output) * nat :=
  (Ok (Microstructure, Response), w).

(** [fail_at]: the [compute] call in which a worker raises, if any. *)
Definition sim_compute (fail_at : option nat) (l : output) (num_workers : Z)
  (get : sim_get) (w : nat) : outcome error output * nat :=
  if decide (fail_at = Some w) then (Raised (WorkerFailure "step 3"), S w)
  else
    match get with
    | SyncGet => (Ok l, S w)
    | ThreadedGet | MultiprocessingGet =>
        if (num_workers <? 1)%Z then (Raised (PyError "ValueError"), S w)
        else (Ok l, S w)
    end.

(** The notebook's output shows 1 loop and the best of 3 runs. *)
Definition sim_loops : nat := 1.
Definition sim_repeat : nat := 3.

(** *** A small simulation for the computation model *)

Definition demo_params : SimulationParams :=
  {| p_shape := (2, 2, 1)%Z; p_chunk := (1, 1, 1)%Z; p_n_steps := 2 |}.

Definition demo_graph : ComputationGraph := graph_of (2, 2, 1) 2.

(** Chunk states are lists of integers; a step adds the sum of the
    neighbours' values to every cell; serialization reverses the list. *)
Definition demo_init (c : nat) : list Z := [Z.of_nat c].

Definition demo_update (own : list Z) (nbrs : list (list Z)) : outcome string (list Z) :=
  Ok (map (fun x => x + foldr Z.add 0 (concat nbrs))%Z own).

Definition demo_assemble (blocks : list (list Z)) : list Z := concat blocks.

Definition demo_encode (v : list Z) : list Z := reverse v.

Definition demo_decode (b : list Z) : option (list Z) := Some (reverse b).

(** Four workers take one step of every chunk at a time. *)
Definition demo_parallel : list (list nat) :=
  [[0; 1; 2; 3]; [4; 5; 6; 7]; [8; 9; 10; 11]; [12]].

(** ** Reading a trace with a state machine *)

Section Scan.
Context {G St : Type}.
Variable next : St -> event G -> St.
Variable allowed : St -> event G -> Prop.

(** Every event of the trace is allowed in the state the events before it
    lead to. *)
Fixpoint accepted (s : St) (t : list (event G)) : Prop :=
  match t with
  | [] => True
  | ev :: t' => allowed s ev /\ accepted (next s ev) t'
  end.

(** The state the trace leads to. *)
Definition final (s : St) (t : list (event G)) : St := fold_left next t s.

End Scan.

Section TraceLogic.
Context {W E G St : Type}.
Variable next : St -> event G -> St.
Variable allowed : St -> event G -> Prop.

(** From a state in [P] the machine accepts the trace of the computation,
    and ends in [Q] when the computation returns, in [R] when it raises. *)
Definition hoare {A} (P : St -> Prop) (m : @M W E G A) (Q R : St -> Prop) : Prop :=
  forall w s, P s ->
    match m w with
    | (Ok _, _, t) => accepted next allowed s t /\ Q (final next s t)
    | (Raised _, _, t) => accepted next allowed s t /\ R (final next s t)
    end.

End TraceLogic.

Section Machines.
Context {G : Type}.

(** *** The timer: is a timed run under way? *)

Definition timer_next (running : bool) (ev : event G) : bool :=
  match ev with
  | EvTimerStart => true
  | EvTimerStop => false
  | _ => running
  end.

(** The timer is started when it is not running and stopped when it is;
    the collaborators are called while it runs; lines are printed while it
    does not. *)
Definition timer_allowed (running : bool) (ev : event G) : Prop :=
  match ev with
  | EvTimerStart | EvPrint _ | EvTimeitReport _ _ => running = false
  | EvTimerStop | EvGenerate _ _ _ | EvCompute _ _ _ => running = true
  end.

(** *** The graph: has one been built that is not computed yet? *)

Definition graph_next (pending : bool) (ev : event G) : bool :=
  match ev with
  | EvGenerate _ _ _ => true
  | EvCompute _ _ _ => false
  | _ => pending
  end.

(** A graph is built when none is pending, computed when one is, and
    nothing else happens in between. *)
Definition graph_allowed (pending : bool) (ev : event G) : Prop :=
  match ev with
  | EvCompute _ _ _ => pending = true
  | _ => pending = false
  end.

(** *** The label: which trial is under way? *)

Definition label_next (cur : option (scheduler_kind * Z)) (ev : event G)
  : option (scheduler_kind * Z) :=
  match ev with
  | EvPrint args => parse_label args
  | _ => cur
  end.

(** The scheduler callable a backend stands for. *)
Definition getter (threaded_get multiprocessing_get : G) (k : scheduler_kind) : G :=
  match k with
  | THREADED => threaded_get
  | MULTIPROCESS => multiprocessing_get
  end.

(** Every collaborator call is made under a label line, and [compute] is
    called with the worker count and the scheduler the label names. *)
Definition label_allowed (threaded_get multiprocessing_get : G)
  (cur : option (scheduler_kind * Z)) (ev : event G) : Prop :=
  match ev with
  | EvGenerate _ _ _ => is_Some cur
  | EvCompute _ num_workers get =>
      exists k, cur = Some (k, num_workers)
                /\ get = getter threaded_get multiprocessing_get k
  | _ => True
  end.

(** *** Counting the calls *)

(** The numbers of [generate_cahn_hilliard_data] and of [compute] calls. *)
Definition count_next (c : nat * nat) (ev : event G) : nat * nat :=
  match ev with
  | EvGenerate _ _ _ => (S c.1, c.2)
  | EvCompute _ _ _ => (c.1, S c.2)
  | _ => c
  end.

Definition call_counts (t : list (event G)) : nat * nat := final count_next (0, 0) t.

(** *** The last event *)

Definition last_next (cur : option (event G)) (ev : event G) : option (event G) :=
  Some ev.

Definition last_event (t : list (event G)) : option (event G) := final last_next None t.

End Machines.

(** The label lines in the stored output of the two timing cells. *)
Definition recorded_labels : list string :=
  ["8 thread(s)"; "4 thread(s)"; "2 thread(s)"; "1 thread(s)";
   "8 process(es)"; "4 process(es)"; "2 process(es)"; "1 process(es)"].

(** ** Which graph a [compute] call is made on *)

(** What a collaborator call handed over: the tuple
    [generate_cahn_hilliard_data] returned, or the lazy array [compute] was
    called on. *)
Inductive call_record (Lazy : Type) : Type :=
| Built (p : Lazy * Lazy)
| Computed (l : Lazy).
Arguments Built {Lazy} p.
Arguments Computed {Lazy} l.

Section Recording.
Context {W E G Lazy Field : Type}.
Variable generate_cahn_hilliard_data :
  dims -> dims -> Z -> W -> outcome E (Lazy * Lazy) * W.
Variable compute : Lazy -> Z -> G -> W -> outcome E Field * W.

(** The collaborators with a record kept beside the outside state: every
    tuple returned and every array computed is written down, in order. *)
Definition recording_generate (shape chunks : dims) (n_steps : Z)
  (wl : W * list (call_record Lazy))
  : outcome E (Lazy * Lazy) * (W * list (call_record Lazy)) :=
  match generate_cahn_hilliard_data shape chunks n_steps wl.1 with
  | (Ok p, w1) => (Ok p, (w1, wl.2 ++ [Built p]))
  | (Raised e, w1) => (Raised e, (w1, wl.2))
  end.

Definition recording_compute (l : Lazy) (num_workers : Z) (get : G)
  (wl : W * list (call_record Lazy))
  : outcome E Field * (W * list (call_record Lazy)) :=
  match compute l num_workers get wl.1 with
  | (r, w1) => (r, (w1, wl.2 ++ [Computed l]))
  end.

(** A run over the recording collaborators, with the record left out. *)
Definition erase {A} (r : outcome E A * (W * list (call_record Lazy)) * list (event G))
  : outcome E A * W * list (event G) :=
  (r.1.1, r.1.2.1, r.2).

Definition record_of {A} (r : outcome E A * (W * list (call_record Lazy)) * list (event G))
  : list (call_record Lazy) :=
  r.1.2.2.

(** The recording changes nothing in what the computation does. *)
Definition transparent {A} (m' : @M (W * list (call_record Lazy)) E G A)
  (m : @M W E G A) : Prop :=
  forall wl, erase (m' wl) = m wl.1.

(** [I] holds of the outside state again when the computation returns, [R]
    when it raises. *)
Definition keeps {A} (I : W * list (call_record Lazy) -> Prop)
  (m' : @M (W * list (call_record Lazy)) E G A)
  (R : W * list (call_record Lazy) -> Prop) : Prop :=
  forall wl, I wl ->
    match m' wl with
    | (Ok _, wl', _) => I wl'
    | (Raised _, wl', _) => R wl'
    end.

End Recording.

Section Records.
Context {Lazy : Type}.

Definition record_next (waiting : option (Lazy * Lazy)) (c : call_record Lazy)
  : option (Lazy * Lazy) :=
  match c with
  | Built p => Some p
  | Computed _ => None
  end.

(** The tuple built last, if no array has been computed since. *)
Definition waiting (start : option (Lazy * Lazy)) (log : list (call_record Lazy))
  : option (Lazy * Lazy) :=
  fold_left record_next log start.

(** Every array computed is the second element of the tuple built by the
    call just before, and a tuple is built only when none is waiting: no
    array is computed twice, and none is kept for a later call. *)
Fixpoint fresh_graphs (start : option (Lazy * Lazy)) (log : list (call_record Lazy))
  : Prop :=
  match log with
  | [] => True
  | Built p :: log' => start = None /\ fresh_graphs (Some p) log'
  | Computed l :: log' =>
      (exists p, start = Some p /\ l = snd p) /\ fresh_graphs None log'
  end.

End Records.

(** The record is in order. *)
Definition in_order {W Lazy : Type} (wl : W * list (call_record Lazy)) : Prop :=
  fresh_graphs None wl.2.

(** The record is in order and no tuple built waits to be computed. *)
Definition settled {W Lazy : Type} (wl : W * list (call_record Lazy)) : Prop :=
  fresh_graphs None wl.2 /\ waiting None wl.2 = None.
(** * Part II: lemmas and theorems *)

(** ** Facts about traces *)

Section TraceFacts.
Context {G : Type}.
Implicit Types (t : list (event G)) (ev : event G).




Lemma rows_from_calls pending t t' :
  forallb is_quiet t = true ->
  rows_from pending (t ++ t') = rows_from pending t'.
Proof.
  induction t as [|ev t IH]; intros Hc; simpl; [done|].
  simpl in Hc. apply andb_prop in Hc as [Hev Ht].
  destruct ev; try discriminate Hev; simpl; by apply IH.
Qed.

Lemma label_lines_app t t' : label_lines (t ++ t') = label_lines t ++ label_lines t'.
Proof.
  induction t as [|ev t IH]; simpl; [done|].
  destruct ev; simpl; try done. destruct (parse_label args); simpl; by rewrite IH.
Qed.

Lemma is_call_timed_body loops n get :
  forallb is_call (timed_body loops n get : list (event G)) = true.
Proof.
  unfold timed_body. induction loops as [|k IH]; [done|].
  simpl. exact IH.
Qed.




Lemma is_quiet_calls t :
  forallb is_call t = true ->
  forallb is_quiet t = true.
Proof.
  induction t as [|ev t IH]; [done|]. simpl.
  intros H. apply andb_prop in H as [Hev Ht]. unfold is_quiet at 1.
  rewrite Hev. simpl. by apply IH.
Qed.

Lemma is_quiet_run_trace (body : list (event G)) :
  forallb is_call body = true ->
  forallb is_quiet (run_trace body) = true.
Proof.
  intros Hb. unfold run_trace.
  change (forallb is_quiet (body ++ [EvTimerStop]) = true).
  rewrite forallb_app. change (forallb is_quiet body && true = true).
  rewrite andb_true_r. by apply is_quiet_calls.
Qed.

Lemma is_quiet_runs_trace numbers n get :
  forallb is_quiet (runs_trace numbers n get : list (event G)) = true.
Proof.
  unfold runs_trace. induction numbers as [|c numbers IH]; [done|].
  cbn [map concat].
  rewrite forallb_app, IH, andb_true_r.
  apply is_quiet_run_trace, is_call_timed_body.
Qed.

(** A trial in which nothing raises adds one row to the table. *)
Lemma rows_trial_trace pending loops repeat label kind get n t :
  kind_of_label label = Some kind ->
  rows_from pending (trial_trace loops repeat label get n ++ t)
  = (kind, n) :: rows_from None t.
Proof.
  intros Hk. unfold trial_trace. simpl. rewrite Hk.
  rewrite <- app_assoc.
  rewrite rows_from_calls by apply is_quiet_runs_trace.
  reflexivity.
Qed.

(** A trial that raises adds its label line, and no row. *)
Lemma rows_failed_trial_trace pending label get n done t :
  forallb is_call t = true ->
  rows_from pending (failed_trial_trace label get n done t) = [].
Proof.
  intros Ht. unfold failed_trial_trace. simpl.
  rewrite rows_from_calls by apply is_quiet_runs_trace.
  simpl. rewrite <- (app_nil_r t).
  by rewrite rows_from_calls by by apply is_quiet_calls.
Qed.

Lemma rows_trial_traces loops repeat label kind get ns t :
  kind_of_label label = Some kind ->
  rows_from None (concat (map (trial_trace loops repeat label get) ns) ++ t)
  = map (pair kind) ns ++ rows_from None t.
Proof.
  intros Hk. induction ns as [|n ns IH]; [done|].
  cbn [map concat]. rewrite <- app_assoc. rewrite (rows_trial_trace _ _ _ _ kind) by done.
  by rewrite IH.
Qed.

Lemma label_lines_quiet t :
  forallb is_quiet t = true ->
  label_lines t = [].
Proof.
  induction t as [|ev t IH]; [done|]. simpl.
  intros H. apply andb_prop in H as [Hev Ht].
  destruct ev; try discriminate Hev; by apply IH.
Qed.

Lemma label_lines_trial_trace loops repeat label kind get n :
  kind_of_label label = Some kind ->
  label_lines (trial_trace loops repeat label get n : list (event G)) = [(kind, n)].
Proof.
  intros Hk. unfold trial_trace. simpl. rewrite Hk.
  rewrite label_lines_app.
  by rewrite label_lines_quiet by apply is_quiet_runs_trace.
Qed.

Lemma label_lines_failed_trial_trace label kind get n done t :
  kind_of_label label = Some kind ->
  forallb is_call t = true ->
  label_lines (failed_trial_trace label get n done t) = [(kind, n)].
Proof.
  intros Hk Ht. unfold failed_trial_trace. simpl. rewrite Hk.
  rewrite label_lines_app.
  rewrite label_lines_quiet by apply is_quiet_runs_trace.
  simpl. by rewrite label_lines_quiet by by apply is_quiet_calls.
Qed.

Lemma label_lines_trial_traces loops repeat label kind get ns :
  kind_of_label label = Some kind ->
  label_lines (concat (map (trial_trace loops repeat label get) ns) : list (event G))
  = map (pair kind) ns.
Proof.
  intros Hk. induction ns as [|n ns IH]; [done|].
  cbn [map concat]. rewrite label_lines_app, IH.
  by rewrite (label_lines_trial_trace _ _ _ kind).
Qed.

(** The targets of the [compute] calls of whole trials. *)
Lemma computed_app t t' : computed (t ++ t') = computed t ++ computed t'.
Proof.
  induction t as [|ev t IH]; simpl; [done|].
  destruct ev; simpl; by rewrite ?IH.
Qed.

Lemma computed_timed_body number n get :
  computed (timed_body number n get : list (event G)) = replicate number Response.
Proof.
  unfold timed_body. induction number as [|k IH]; [done|].
  cbn [replicate concat]. rewrite computed_app, IH. reflexivity.
Qed.

Lemma computed_runs_trace numbers n get :
  computed (runs_trace numbers n get : list (event G))
  = replicate (sum_list numbers) Response.
Proof.
  unfold runs_trace. induction numbers as [|c numbers IH]; [done|].
  cbn [map concat sum_list sum_list_with]. rewrite computed_app, IH.
  unfold run_trace. cbn [computed]. rewrite computed_app, computed_timed_body.
  cbn [computed]. by rewrite app_nil_r, replicate_add.
Qed.

Lemma computed_trial_trace loops repeat label get n :
  computed (trial_trace loops repeat label get n : list (event G))
  = replicate (calls_per_trial loops repeat) Response.
Proof.
  unfold trial_trace. cbn [computed].
  rewrite computed_app, computed_runs_trace. cbn [computed].
  by rewrite app_nil_r.
Qed.

Lemma computed_trial_traces loops repeat label get ns :
  computed (concat (map (trial_trace loops repeat label get) ns) : list (event G))
  = replicate (length ns * calls_per_trial loops repeat) Response.
Proof.
  induction ns as [|n ns IH]; [done|].
  cbn [map concat length]. rewrite computed_app, IH, computed_trial_trace.
  by rewrite <- replicate_add.
Qed.

(** The notebook's "1 loop": one calibration run of one call, then the
    reported runs of one call each. *)
Lemma run_numbers_one_loop repeat : run_numbers 1 repeat = replicate (S repeat) 1.
Proof. reflexivity. Qed.

Lemma calls_per_trial_one_loop repeat : calls_per_trial 1 repeat = S repeat.
Proof.
  unfold calls_per_trial. rewrite run_numbers_one_loop.
  induction (S repeat) as [|k IH]; [done|]. simpl. by rewrite IH.
Qed.

End TraceFacts.

(** ** Facts about the harness *)

Section HarnessFacts.
Context {W E G Lazy Field : Type}.
Variable generate : dims -> dims -> Z -> W -> outcome E (Lazy * Lazy) * W.
Variable compute : Lazy -> Z -> G -> W -> outcome E Field * W.
Variable loops repeat : nat.

Local Abbreviation M := (@M W E G).

Lemma time_ch_unfold num_workers get shape chunks n_steps w :
  time_ch generate compute num_workers get shape chunks n_steps w =
  match generate shape chunks n_steps w with
  | (Ok p, w1) =>
      match compute (snd p) num_workers get w1 with
      | (Ok _, w2) =>
          (Ok PyNone, w2,
           [EvGenerate shape chunks n_steps; EvCompute Response num_workers get])
      | (Raised e, w2) =>
          (Raised e, w2,
           [EvGenerate shape chunks n_steps; EvCompute Response num_workers get])
      end
  | (Raised e, w1) => (Raised e, w1, [EvGenerate shape chunks n_steps])
  end.
Proof.
  unfold time_ch, bind, call_generate, call_compute, ret. simpl.
  destruct (generate shape chunks n_steps w) as [[p|e] w1]; [|done].
  destruct (compute p.2 num_workers get w1) as [[f|e] w2]; done.
Qed.

Lemma time_ch_default_yields n get :
  yields (time_ch_default generate compute n get)
    (eq (call_body n get)) (fun t => forallb is_call t = true).
Proof.
  intros w. unfold time_ch_default. rewrite time_ch_unfold.
  unfold default_shape, default_chunks, default_n_steps, call_body.
  destruct (generate _ _ _ w) as [[p|e] w1]; [|done].
  destruct (compute _ n get w1) as [[f|e] w2]; done.
Qed.

Lemma iterate_yields {A} (stmt : M A) (R : list (event G)) F n :
  yields stmt (eq R) F ->
  yields (iterate n stmt) (eq (concat (replicate n R)))
    (fun t => exists k t', k < n /\ t = concat (replicate k R) ++ t' /\ F t').
Proof.
  intros Hs. induction n as [|n IH]; intros w; [done|].
  simpl. unfold bind. specialize (Hs w).
  destruct (stmt w) as [[[a|e] w1] t1].
  - subst t1. specialize (IH w1).
    destruct (iterate n stmt w1) as [[[u|e] w2] t2].
    + by subst t2.
    + destruct IH as (k & t' & Hk & -> & HF).
      exists (S k), t'. split; [lia|]. split; [|done].
      simpl. by rewrite <- app_assoc.
  - exists 0, t1. split; [lia|]. by split.
Qed.

Lemma timed_run_yields {A} (stmt : M A) body number :
  forallb is_call body = true ->
  yields stmt (eq body) (fun t => forallb is_call t = true) ->
  yields (timed_run number stmt)
    (eq (run_trace (concat (replicate number body))))
    (fun t => exists t', t = EvTimerStart :: t' /\ forallb is_call t' = true).
Proof.
  intros Hb Hs w. unfold timed_run, bind, emit. simpl.
  pose proof (iterate_yields stmt body _ number Hs w) as Hi.
  destruct (iterate number stmt w) as [[[u|e] w1] t1].
  - by subst t1.
  - destruct Hi as (k & t' & _ & -> & Ht'). eexists; split; [done|].
    rewrite forallb_app, Ht', andb_true_r.
    clear -Hb. induction k as [|k IH]; [done|].
    simpl. by rewrite forallb_app, Hb, IH.
Qed.

Lemma for_each_yields {A} (xs : list A) (body : A -> M unit) T F :
  (forall x, yields (body x) (eq (T x)) (F x)) ->
  yields (for_each xs body) (eq (concat (map T xs)))
    (fun t => exists pre x post t',
        xs = pre ++ x :: post /\ t = concat (map T pre) ++ t' /\ F x t').
Proof.
  intros Hb. induction xs as [|x xs IH]; intros w; [done|].
  simpl. unfold bind. specialize (Hb x w).
  destruct (body x w) as [[[u|e] w1] t1].
  - subst t1. specialize (IH w1).
    destruct (for_each xs body w1) as [[[u'|e] w2] t2].
    + by subst t2.
    + destruct IH as (pre & y & post & t' & -> & -> & HF).
      exists (x :: pre), y, post, t'. split; [done|]. split; [|done].
      simpl. by rewrite <- app_assoc.
  - exists [], x, xs, t1. done.
Qed.

(** ** The timed runs of [%timeit], calibration included *)

Lemma bind_assoc {A B C} (m : M A) (f : A -> M B) (g : B -> M C) w :
  bind (bind m f) g w = bind m (fun a => bind (f a) g) w.
Proof.
  unfold bind. destruct (m w) as [[[a|e] w1] t1]; [|done].
  destruct (f a w1) as [[[b|e] w2] t2]; [|done].
  destruct (g b w2) as [[r w3] t3]. by rewrite app_assoc.
Qed.

Lemma bind_ext {A B} (m m' : M A) (f f' : A -> M B) w :
  (forall w, m w = m' w) -> (forall a w, f a w = f' a w) ->
  bind m f w = bind m' f' w.
Proof.
  intros Hm Hf. unfold bind. rewrite Hm.
  destruct (m' w) as [[[a|e] w1] t1]; [|done]. by rewrite Hf.
Qed.

Lemma for_each_app {A} (xs ys : list A) (body : A -> M unit) w :
  for_each (xs ++ ys) body w = bind (for_each xs body) (fun _ => for_each ys body) w.
Proof.
  revert w. induction xs as [|x xs IH]; intros w; simpl.
  - unfold bind, ret. by destruct (for_each ys body w) as [[r w1] t1].
  - rewrite bind_assoc. apply bind_ext; [done|]. intros _ w1. apply IH.
Qed.

Lemma iterate_for_each {A} (x : A) (body : A -> M unit) n w :
  iterate n (body x) w = for_each (replicate n x) body w.
Proof.
  revert w. induction n as [|n IH]; intros w; [done|].
  simpl. apply bind_ext; [done|]. intros _ w1. apply IH.
Qed.

(** The calibration runs and the reported runs of one [%timeit] are one
    sequence of timed runs. *)
Lemma timeit_runs {A} (stmt : M A) w :
  timeit loops repeat stmt w
  = bind (for_each (run_numbers loops repeat) (fun number => timed_run number stmt))
      (fun _ => emit (EvTimeitReport loops repeat)) w.
Proof.
  unfold timeit, run_numbers. symmetry.
  erewrite bind_ext; [|intros w'; apply for_each_app|intros; reflexivity].
  rewrite bind_assoc. apply bind_ext; [done|]. intros _ w1.
  apply bind_ext; [|done]. intros w2. symmetry.
  apply (iterate_for_each loops (fun number => timed_run number stmt)).
Qed.

Lemma trial_runs label get n w :
  trial generate compute loops repeat label get n w
  = bind (emit (EvPrint [PyInt n; PyStr label]))
      (fun _ =>
         bind (for_each (run_numbers loops repeat)
                 (fun number =>
                    timed_run number (time_ch_default generate compute n get)))
           (fun _ => emit (EvTimeitReport loops repeat))) w.
Proof.
  unfold trial. apply bind_ext; [done|]. intros _ w1. apply timeit_runs.
Qed.

(** The traces of a trial: all its timed runs and the report, or some of
    its timed runs and the start of the one that raised. *)
Lemma trial_yields label get n :
  yields (trial generate compute loops repeat label get n)
    (eq (trial_trace loops repeat label get n))
    (fun t => exists done number rest t',
        run_numbers loops repeat = done ++ number :: rest
        /\ forallb is_call t' = true
        /\ t = failed_trial_trace label get n done t').
Proof.
  intros w. rewrite trial_runs. unfold bind, emit. simpl.
  pose proof (for_each_yields (run_numbers loops repeat)
                (fun number => timed_run number (time_ch_default generate compute n get))
                (fun number => run_trace (timed_body number n get)) _
                (fun number => timed_run_yields _ (call_body n get) number eq_refl
                                 (time_ch_default_yields n get)) w) as Hi.
  destruct (for_each (run_numbers loops repeat) _ w) as [[[u|e] w1] t1].
  - subst t1. reflexivity.
  - destruct Hi as (done & number & rest & t' & Hn & -> & t'' & -> & Hc).
    exists done, number, rest, t''. done.
Qed.

(** The traces of a timing loop: whole trials, then at most one trial that
    raised. *)
Lemma timing_loop_yields label get ns :
  yields (timing_loop generate compute loops repeat label get ns)
    (eq (concat (map (trial_trace loops repeat label get) ns)))
    (fun t => exists pre x post done number rest t',
        ns = pre ++ x :: post
        /\ run_numbers loops repeat = done ++ number :: rest
        /\ forallb is_call t' = true
        /\ t = concat (map (trial_trace loops repeat label get) pre)
                ++ failed_trial_trace label get x done t').
Proof.
  intros w. unfold timing_loop.
  pose proof (for_each_yields ns (trial generate compute loops repeat label get)
                _ _ (trial_yields label get) w) as H.
  destruct (for_each ns _ w) as [[[u|e] w1] t]; [done|].
  destruct H as (pre & x & post & t' & -> & -> & done & number & rest & t'' & Hn & Hc & ->).
  by exists pre, x, post, done, number, rest, t''.
Qed.

Lemma timing_loop_rows label kind get ns w :
  kind_of_label label = Some kind ->
  match timing_loop generate compute loops repeat label get ns w with
  | (Ok _, _, t) =>
      (forall t', rows_from None (t ++ t') = map (pair kind) ns ++ rows_from None t')
      /\ label_lines t = map (pair kind) ns
  | (Raised _, _, t) =>
      exists pre x post,
        ns = pre ++ x :: post
        /\ report_rows t = map (pair kind) pre
        /\ label_lines t = map (pair kind) (pre ++ [x])
  end.
Proof.
  intros Hk. pose proof (timing_loop_yields label get ns w) as H.
  destruct (timing_loop _ _ _ _ label get ns w) as [[[u|e] w1] t].
  - subst t. split.
    + intros t'. by apply rows_trial_traces.
    + by apply label_lines_trial_traces.
  - destruct H as (pre & x & post & done & number & rest & t' & -> & _ & Hc & ->).
    exists pre, x, post. split; [done|]. split.
    + unfold report_rows. rewrite (rows_trial_traces _ _ _ kind) by done.
      rewrite rows_failed_trial_trace by done. by rewrite app_nil_r.
    + rewrite label_lines_app, (label_lines_trial_traces _ _ _ kind) by done.
      rewrite (label_lines_failed_trial_trace _ kind) by done.
      by rewrite map_app.
Qed.


End HarnessFacts.

(** ** Which events a computation can emit *)

Section Emits.
Context {W E G Lazy Field : Type}.
Variable generate : dims -> dims -> Z -> W -> outcome E (Lazy * Lazy) * W.
Variable compute : Lazy -> Z -> G -> W -> outcome E Field * W.
Variable dask_threaded_get dask_multiprocessing_get : G.
Variable loops repeat : nat.

Local Abbreviation M := (@M W E G).

Lemma emits_only_ret {A} (a : A) P : emits_only (ret a : M A) P.
Proof. intros w. constructor. Qed.

Lemma emits_only_emit ev (P : event G -> Prop) :
  P ev -> emits_only (emit ev : M unit) P.
Proof. intros H w. by repeat constructor. Qed.

Lemma emits_only_bind {A B} (m : M A) (f : A -> M B) P :
  emits_only m P -> (forall a, emits_only (f a) P) -> emits_only (bind m f) P.
Proof.
  intros Hm Hf w. unfold bind, trace_of. specialize (Hm w). unfold trace_of in Hm.
  destruct (m w) as [[[a|e] w1] t1]; simpl in *; [|done].
  specialize (Hf a w1). unfold trace_of in Hf.
  destruct (f a w1) as [[r w2] t2]; simpl in *.
  by apply Forall_app.
Qed.

Lemma emits_only_iterate {A} (stmt : M A) n P :
  emits_only stmt P -> emits_only (iterate n stmt) P.
Proof.
  intros Hs. induction n as [|n IH]; simpl.
  - apply emits_only_ret.
  - apply emits_only_bind; [done|]. intros _. exact IH.
Qed.

Lemma emits_only_for_each {A} (xs : list A) (body : A -> M unit) P :
  (forall x, emits_only (body x) P) -> emits_only (for_each xs body) P.
Proof.
  intros Hb. induction xs as [|x xs IH]; simpl.
  - apply emits_only_ret.
  - apply emits_only_bind; [apply Hb|]. intros _. exact IH.
Qed.

Lemma emits_only_time_ch num_workers get shape chunks n_steps (P : event G -> Prop) :
  P (EvGenerate shape chunks n_steps) ->
  P (EvCompute Response num_workers get) ->
  emits_only (time_ch generate compute num_workers get shape chunks n_steps) P.
Proof.
  intros Hg Hc w. unfold trace_of. rewrite time_ch_unfold.
  destruct (generate _ _ _ w) as [[p|e] w1]; [|by repeat constructor].
  destruct (compute _ _ _ w1) as [[f|e] w2]; by repeat constructor.
Qed.

Lemma emits_only_trial label get n :
  emits_only (trial generate compute loops repeat label get n) cell_event.
Proof.
  unfold trial.
  apply emits_only_bind; [by apply emits_only_emit|]. intros _.
  assert (forall number,
    emits_only (timed_run number (time_ch_default generate compute n get)) cell_event)
    as Hrun.
  { intros number. unfold timed_run.
    apply emits_only_bind; [by apply emits_only_emit|]. intros _.
    apply emits_only_bind; [|intros _; by apply emits_only_emit].
    apply emits_only_iterate. by apply emits_only_time_ch. }
  unfold timeit. apply emits_only_bind; [by apply emits_only_for_each|]. intros _.
  apply emits_only_bind; [|intros _; by apply emits_only_emit].
  by apply emits_only_iterate.
Qed.

Lemma emits_only_timing_loop label get ns :
  emits_only (timing_loop generate compute loops repeat label get ns) cell_event.
Proof. apply emits_only_for_each. intros n. apply emits_only_trial. Qed.

Lemma emits_only_notebook :
  emits_only
    (notebook generate compute dask_threaded_get dask_multiprocessing_get loops repeat)
    cell_event.
Proof.
  unfold notebook, threaded_cell, multiprocessing_cell.
  apply emits_only_bind; [|intros _]; apply emits_only_timing_loop.
Qed.

Lemma computed_cell_events (t : list (event G)) :
  Forall cell_event t -> Forall (eq Response) (computed t).
Proof.
  induction 1 as [|ev t Hev _ IH]; simpl; [constructor|].
  destruct ev; simpl in *; try done. constructor; [done|exact IH].
Qed.

End Emits.

(** ** Facts about the computation model *)

(** *** The layout of a built graph *)

Lemma lookup_graph_of gr n i :
  i < node_count gr n -> g_nodes (graph_of gr n) !! i = Some (node_at gr n i).
Proof.
  intros Hi. unfold graph_of. simpl. rewrite list_lookup_fmap.
  by rewrite lookup_seq_lt.
Qed.

Lemma lookup_graph_of_Some gr n i nd :
  g_nodes (graph_of gr n) !! i = Some nd -> i < node_count gr n /\ nd = node_at gr n i.
Proof.
  intros H. assert (i < node_count gr n) as Hi.
  { apply lookup_lt_Some in H. unfold graph_of in H. simpl in H.
    by rewrite length_map, length_seq in H. }
  split; [done|]. rewrite lookup_graph_of in H by done. congruence.
Qed.

Lemma length_graph_of gr n : length (g_nodes (graph_of gr n)) = node_count gr n.
Proof. unfold graph_of. simpl. by rewrite length_map, length_seq. Qed.

Lemma neighbours_lt gr c c' : c' ∈ neighbours gr c -> c' < chunk_count gr.
Proof.
  unfold neighbours. rewrite list_elem_of_In, filter_In, in_seq. lia.
Qed.

Lemma node_at_deps_lt gr n i : Forall (fun d => d < i) (node_deps (node_at gr n i)).
Proof.
  unfold node_at. set (C := chunk_count gr).
  destruct (i <? C) eqn:H1; [constructor|].
  apply Nat.ltb_ge in H1.
  destruct (i <? (n + 1) * C) eqn:H2.
  - apply Nat.ltb_lt in H2. simpl.
    assert (0 < C) as HC by (destruct C; lia).
    constructor; [lia|].
    apply Forall_forall. intros d Hd.
    apply list_elem_of_fmap in Hd as (c' & -> & Hc').
    apply neighbours_lt in Hc'. fold C in Hc'.
    pose proof (Nat.Div0.mul_div_le i C) as Hle.
    assert (1 <= i / C) as Hq by (apply Nat.div_le_lower_bound; lia).
    nia.
  - apply Nat.ltb_ge in H2.
    destruct (i =? (n + 1) * C) eqn:H3; simpl.
    + apply Nat.eqb_eq in H3. apply Forall_forall. intros d Hd.
      apply list_elem_of_fmap in Hd as (c & -> & Hc).
      apply elem_of_seq in Hc. lia.
    + apply Nat.eqb_neq in H3. apply Forall_forall. intros d Hd.
      apply elem_of_seq in Hd. lia.
Qed.

Lemma wf_graph_of gr n : wf_graph (g_nodes (graph_of gr n)).
Proof.
  intros i nd H. apply lookup_graph_of_Some in H as [_ ->]. apply node_at_deps_lt.
Qed.

Lemma build_Ok pol p g :
  build pol p = Ok g ->
  valid_params pol p = true
  /\ g = graph_of (grid_of (p_shape p) (p_chunk p)) (Z.to_nat (p_n_steps p)).
Proof.
  unfold build. destruct (valid_params pol p); [|done]. intros [= <-]. done.
Qed.

Lemma wf_build pol p g : build pol p = Ok g -> wf_graph (g_nodes g).
Proof. intros H. apply build_Ok in H as [_ ->]. apply wf_graph_of. Qed.

(** *** Executions *)

Section ExecutionFacts.
Context {V B : Type}.
Variable init : nat -> V.
Variable update : V -> list V -> outcome string V.
Variable assemble : list V -> V.
Variable encode : V -> B.
Variable decode : B -> option V.

Implicit Types (m : @machine V) (st : gmap nat V).

Local Abbreviation op := (run_op init update assemble).
Local Abbreviation task_run := (run_task init update assemble encode decode).
Local Abbreviation batch_run := (run_batch init update assemble encode decode).
Local Abbreviation schedule_run := (run_schedule init update assemble encode decode).

Local Abbreviation faithful := (faithful encode decode).
Local Abbreviation justified_by := (justified_by init update assemble).
Local Abbreviation justified := (justified init update assemble).

Lemma pass_faithful k v : faithful -> pass encode decode k v = Some v.
Proof. intros Hf. destruct k; simpl; [done|apply Hf]. Qed.

Lemma mapM_pass_faithful k (ins : list V) :
  faithful -> mapM (pass encode decode k) ins = Some ins.
Proof.
  intros Hf. apply mapM_Some. induction ins; constructor; [by apply pass_faithful|done].
Qed.

Lemma run_task_faithful k tk ins : faithful -> task_run k tk ins = op tk ins.
Proof.
  intros Hf. unfold run_task. rewrite mapM_pass_faithful by done.
  destruct (op tk ins) as [v|e]; [|done]. by rewrite pass_faithful.
Qed.

Lemma gather_weaken (st st' : gmap nat V) deps ins :
  st ⊆ st' -> gather st deps = Some ins -> gather st' deps = Some ins.
Proof.
  intros Hsub. unfold gather. rewrite !mapM_Some.
  intros H. eapply Forall2_impl; [exact H|]. simpl.
  intros d v Hd. by eapply lookup_weaken.
Qed.

Lemma gather_dom (st : gmap nat V) deps ins d :
  gather st deps = Some ins -> d ∈ deps -> is_Some (st !! d).
Proof.
  unfold gather. rewrite mapM_Some. intros H Hd.
  apply list_elem_of_lookup in Hd as [j Hj].
  destruct (Forall2_lookup_l _ _ _ _ _ H Hj) as (v & _ & Hv). by exists v.
Qed.

Lemma justified_by_weaken g (st1 st2 st' : gmap nat V) :
  st1 ⊆ st2 -> justified_by g st1 st' -> justified_by g st2 st'.
Proof.
  intros Hsub Hj i v Hi. destruct (Hj i v Hi) as (nd & ins & Hnd & Hg & Hop).
  exists nd, ins. split; [done|]. split; [|done]. by eapply gather_weaken.
Qed.

(** What a batch keeps true, whatever the snapshot it reads. *)
Lemma run_batch_invariant k g snap m batch m' :
  faithful ->
  batch_run k g snap m batch = Some (Ok m') ->
  snap ⊆ m_store m ->
  justified_by g snap (m_store m) ->
  snap ⊆ m_store m' /\ justified_by g snap (m_store m').
Proof.
  intros Hf. revert m. induction batch as [|i rest IH]; intros m; simpl.
  - intros [= <-]. done.
  - destruct (m_store m !! i) eqn:Hfree; [done|].
    unfold run_node.
    destruct (g !! i) as [nd|] eqn:Hnd; [|done].
    destruct (gather snap (node_deps nd)) as [ins|] eqn:Hg; [|done].
    rewrite run_task_faithful by done.
    destruct (op (node_task nd) ins) as [v|e] eqn:Hop; [|done].
    intros Hrun Hsub Hj. apply IH in Hrun; [done| |]; simpl.
    + etrans; [exact Hsub|]. by apply insert_subseteq.
    + intros j u. destruct (decide (j = i)) as [->|Hne].
      * rewrite lookup_insert_eq. intros [= <-]. by exists nd, ins.
      * rewrite lookup_insert_ne by done. apply Hj.
Qed.

Lemma run_batch_justified k g m batch m' :
  faithful ->
  batch_run k g (m_store m) m batch = Some (Ok m') ->
  justified g (m_store m) ->
  m_store m ⊆ m_store m' /\ justified g (m_store m').
Proof.
  intros Hf Hrun Hj.
  destruct (run_batch_invariant _ _ _ _ _ _ Hf Hrun) as [Hsub Hj']; [done|done|].
  split; [done|]. by eapply justified_by_weaken.
Qed.

Lemma run_schedule_justified k w g m sched m' :
  faithful ->
  schedule_run k w g m sched = Some (Ok m') ->
  justified g (m_store m) ->
  justified g (m_store m').
Proof.
  intros Hf. revert m. induction sched as [|batch rest IH]; intros m; simpl.
  - by intros [= <-].
  - destruct (batch_ok w batch); [|done].
    destruct (batch_run k g (m_store m) m batch) as [[m1|e]|] eqn:Hb; [|done|done].
    intros Hrun Hj. eapply IH; [exact Hrun|].
    by eapply run_batch_justified.
Qed.

Lemma justified_fresh g : justified g (m_store (@fresh V)).
Proof. intros i v. simpl. by rewrite lookup_empty. Qed.

(** Two justified stores of a well-formed graph agree wherever both hold a
    value: the value of a node is fixed by the graph. *)
Lemma justified_agree g (st1 st2 : gmap nat V) :
  wf_graph g -> justified g st1 -> justified g st2 ->
  forall i v1 v2, st1 !! i = Some v1 -> st2 !! i = Some v2 -> v1 = v2.
Proof.
  intros Hwf H1 H2 i. induction (lt_wf i) as [i _ IH]. intros v1 v2 Hv1 Hv2.
  destruct (H1 i v1 Hv1) as (nd & ins1 & Hnd & Hg1 & Hop1).
  destruct (H2 i v2 Hv2) as (nd' & ins2 & Hnd' & Hg2 & Hop2).
  rewrite Hnd in Hnd'. injection Hnd' as <-.
  assert (ins1 = ins2) as <-; [|congruence].
  pose proof (Hwf i nd Hnd) as Hlt.
  unfold gather in Hg1, Hg2. rewrite mapM_Some in Hg1, Hg2.
  clear Hop1 Hop2 Hnd. revert ins2 Hg2.
  induction Hg1 as [|d x ds xs Hd _ IHds]; intros ins2 Hg2.
  - by inversion Hg2.
  - inversion Hg2 as [|d' y ds' ys Hy Hys]; subst.
    inversion Hlt as [|? ? Hdi Hlt']; subst.
    f_equal; [by eapply (IH d)|by apply IHds].
Qed.

(** *** Counting the step updates *)

Lemma counted_fresh g : counted g (@fresh V).
Proof.
  unfold counted, step_ids. simpl. rewrite dom_empty_L.
  rewrite filter_empty_L by apply _. symmetry. apply size_empty.
Qed.

Lemma step_ids_insert g (X : gset nat) i :
  i ∉ X ->
  size (step_ids g ({[i]} ∪ X))
  = size (step_ids g X) + (if is_step_id g i then 1 else 0).
Proof.
  intros Hi. unfold step_ids.
  destruct (is_step_id g i) eqn:Hs.
  - assert (filter (fun j => is_step_id g j = true) ({[i]} ∪ X)
            = {[i]} ∪ filter (fun j => is_step_id g j = true) X) as ->.
    { apply set_eq. intros x.
      rewrite elem_of_filter, !elem_of_union, elem_of_filter, elem_of_singleton.
      split; [tauto|]. intros [->|[? ?]]; tauto. }
    rewrite size_union.
    + rewrite size_singleton. lia.
    + apply elem_of_disjoint. intros x. rewrite elem_of_singleton, elem_of_filter.
      intros -> [_ ?]. done.
  - assert (filter (fun j => is_step_id g j = true) ({[i]} ∪ X)
            = filter (fun j => is_step_id g j = true) X) as ->.
    { apply set_eq. intros x. rewrite !elem_of_filter, elem_of_union, elem_of_singleton.
      split; [|tauto]. intros [Hx [->|Hx']]; [congruence|done]. }
    lia.
Qed.

Lemma run_batch_counted k g snap m batch m' :
  batch_run k g snap m batch = Some (Ok m') -> counted g m -> counted g m'.
Proof.
  revert m. induction batch as [|i rest IH]; intros m; simpl.
  - by intros [= <-].
  - destruct (m_store m !! i) eqn:Hfree; [done|].
    unfold run_node.
    destruct (g !! i) as [nd|] eqn:Hnd; [|done].
    destruct (gather snap (node_deps nd)) as [ins|]; [|done].
    destruct (task_run k (node_task nd) ins) as [v|e]; [|done].
    intros Hrun Hc. apply IH in Hrun; [done|].
    unfold counted in *. simpl. rewrite dom_insert_L.
    rewrite step_ids_insert by (by apply not_elem_of_dom).
    rewrite Hc. unfold is_step_id. by rewrite Hnd.
Qed.

Lemma run_schedule_counted k w g m sched m' :
  schedule_run k w g m sched = Some (Ok m') -> counted g m -> counted g m'.
Proof.
  revert m. induction sched as [|batch rest IH]; intros m; simpl.
  - by intros [= <-].
  - destruct (batch_ok w batch); [|done].
    destruct (batch_run k g (m_store m) m batch) as [[m1|e]|] eqn:Hb; [|done|done].
    intros Hrun Hc. eapply IH; [exact Hrun|]. by eapply run_batch_counted.
Qed.

Lemma run_schedule_app k w g m s1 s2 :
  schedule_run k w g m (s1 ++ s2)
  = match schedule_run k w g m s1 with
    | Some (Ok m1) => schedule_run k w g m1 s2
    | r => r
    end.
Proof.
  revert m. induction s1 as [|batch rest IH]; intros m; simpl; [done|].
  destruct (batch_ok w batch); [|done].
  destruct (batch_run k g (m_store m) m batch) as [[m1|e]|]; [apply IH|done|done].
Qed.

Lemma run_single k w g m j nd ins v :
  1 <= w ->
  m_store m !! j = None ->
  g !! j = Some nd ->
  gather (m_store m) (node_deps nd) = Some ins ->
  task_run k (node_task nd) ins = Ok v ->
  schedule_run k w g m [[j]]
  = Some (Ok {| m_store := <[j := v]> (m_store m);
                m_steps := m_steps m + (if is_step (node_task nd) then 1 else 0) |}).
Proof.
  intros Hw Hfree Hnd Hins Hv. simpl.
  assert (batch_ok w [j] = true) as ->.
  { apply bool_decide_eq_true. simpl. split; [done|lia]. }
  unfold run_node. by rewrite Hfree, Hnd, Hins, Hv.
Qed.

(** A worker failure is the only way an execution fails. *)
Lemma run_task_raises k tk ins e :
  task_run k tk ins = Raised e -> exists cause, e = WorkerFailure cause.
Proof.
  unfold run_task.
  destruct (mapM _ ins) as [ins'|]; [|intros [= <-]; by eexists].
  destruct (op tk ins') as [v|e'] eqn:Hop.
  - destruct (pass _ _ k v); [done|]. intros [= <-]. by eexists.
  - intros [= <-]. unfold run_op in Hop.
    destruct tk; try done. destruct ins' as [|own nbrs]; [injection Hop as <-; by eexists|].
    destruct (update own nbrs); [done|]. injection Hop as <-. by eexists.
Qed.

Lemma run_batch_raises k g snap m batch e :
  batch_run k g snap m batch = Some (Raised e) -> exists cause, e = WorkerFailure cause.
Proof.
  revert m. induction batch as [|i rest IH]; intros m; simpl; [done|].
  destruct (m_store m !! i); [done|].
  unfold run_node.
  destruct (g !! i) as [nd|]; [|done].
  destruct (gather snap (node_deps nd)) as [ins|]; [|done].
  destruct (task_run k (node_task nd) ins) as [v|e'] eqn:Ht.
  - apply IH.
  - intros [= <-]. by eapply run_task_raises.
Qed.

Lemma run_schedule_raises k w g m sched e :
  schedule_run k w g m sched = Some (Raised e) -> exists cause, e = WorkerFailure cause.
Proof.
  revert m. induction sched as [|batch rest IH]; intros m; simpl; [done|].
  destruct (batch_ok w batch); [|done].
  destruct (batch_run k g (m_store m) m batch) as [[m1|e']|] eqn:Hb; [apply IH| |done].
  intros [= <-]. by eapply run_batch_raises.
Qed.

End ExecutionFacts.

(** *** Executions of a built graph *)

Section BuiltGraph.
Context {V B : Type}.
Variable init : nat -> V.
Variable update : V -> list V -> outcome string V.
Variable assemble : list V -> V.
Variable encode : V -> B.
Variable decode : B -> option V.
Variable gr : grid.
Variable n : nat.
Implicit Types (m : @machine V) (st : gmap nat V).

Local Abbreviation C := (chunk_count gr).
Local Abbreviation g := (g_nodes (graph_of gr n)).
Local Abbreviation nodes_justified := (justified init update assemble g).
Local Abbreviation total_update := (total_update update).
Local Abbreviation schedule_run := (run_schedule init update assemble encode decode).

Lemma node_at_step i :
  C <= i < (n + 1) * C ->
  node_at gr n i
  = Node (TStep (i mod C) (i / C))
         ((i - C) :: map (fun c' => (i / C - 1) * C + c') (neighbours gr (i mod C))).
Proof.
  intros [H1 H2]. unfold node_at.
  destruct (i <? C) eqn:E1; [apply Nat.ltb_lt in E1; lia|].
  destruct (i <? (n + 1) * C) eqn:E2; [done|apply Nat.ltb_ge in E2; lia].
Qed.

Lemma node_at_response :
  node_at gr n ((n + 1) * C)
  = Node (TAssemble Response) (map (fun c => n * C + c) (seq 0 C)).
Proof.
  unfold node_at.
  destruct ((n + 1) * C <? C) eqn:E1.
  - apply Nat.ltb_lt in E1. lia.
  - by rewrite Nat.ltb_irrefl, Nat.eqb_refl.
Qed.

Lemma is_step_id_graph_of i : is_step_id g i = true <-> C <= i < (n + 1) * C.
Proof.
  unfold is_step_id. destruct (decide (i < node_count gr n)) as [Hi|Hi].
  - rewrite lookup_graph_of by done. unfold node_at.
    destruct (i <? C) eqn:E1.
    { apply Nat.ltb_lt in E1. simpl. split; [done|lia]. }
    apply Nat.ltb_ge in E1.
    destruct (i <? (n + 1) * C) eqn:E2.
    { apply Nat.ltb_lt in E2. simpl. split; [lia|done]. }
    apply Nat.ltb_ge in E2.
    destruct (i =? (n + 1) * C); simpl; (split; [done|lia]).
  - rewrite lookup_ge_None_2 by (rewrite length_graph_of; lia).
    unfold node_count in Hi. split; [done|lia].
Qed.

(** A finished node has all its dependencies finished. *)
Lemma justified_closed st i d :
  nodes_justified st -> i ∈ dom st -> d ∈ node_deps (node_at gr n i) -> d ∈ dom st.
Proof.
  intros Hj Hi Hd. apply elem_of_dom in Hi as [v Hv].
  destruct (Hj i v Hv) as (nd & ins & Hnd & Hg & _).
  apply lookup_graph_of_Some in Hnd as [_ ->].
  apply elem_of_dom. by eapply gather_dom.
Qed.

Lemma column_done st c k :
  nodes_justified st -> (n + 1) * C ∈ dom st -> c < C -> k <= n ->
  (n - k) * C + c ∈ dom st.
Proof.
  intros Hj Hr Hc. induction k as [|k IH]; intros Hk.
  - rewrite Nat.sub_0_r. eapply justified_closed; [done|exact Hr|].
    rewrite node_at_response. apply list_elem_of_fmap. exists c. split; [done|].
    apply elem_of_seq. lia.
  - assert ((n - k) * C + c ∈ dom st) as Hprev by (apply IH; lia).
    eapply justified_closed; [done|exact Hprev|].
    rewrite node_at_step by nia.
    replace ((n - S k) * C + c) with ((n - k) * C + c - C) by nia.
    apply list_elem_of_here.
Qed.

Lemma all_steps_done st i :
  nodes_justified st -> (n + 1) * C ∈ dom st -> C <= i < (n + 1) * C -> i ∈ dom st.
Proof.
  intros Hj Hr [H1 H2].
  assert (0 < C) as HC by lia.
  pose proof (Nat.div_mod_eq i C) as Hdm.
  pose proof (Nat.mod_upper_bound i C ltac:(lia)) as Hm.
  assert (i / C <= n) as Hq.
  { apply Nat.lt_succ_r. apply Nat.Div0.div_lt_upper_bound. lia. }
  replace i with ((n - (n - i / C)) * C + i mod C) by nia.
  apply column_done; [done|done|done|lia].
Qed.

(** An execution that has realized the response has run every step of
    every chunk, once. *)
Lemma steps_of_complete m :
  nodes_justified (m_store m) -> counted g m ->
  is_Some (m_store m !! ((n + 1) * C)) ->
  m_steps m = C * n.
Proof.
  intros Hj Hc Hr. apply elem_of_dom in Hr.
  rewrite Hc. unfold step_ids.
  assert (filter (fun i => is_step_id g i = true) (dom (m_store m)) = set_seq C (n * C)) as ->.
  { apply set_eq. intros x. rewrite elem_of_filter, elem_of_set_seq, is_step_id_graph_of.
    split.
    - intros [[H1 H2] _]. lia.
    - intros [H1 H2]. split; [lia|]. apply all_steps_done; [done|done|lia]. }
  rewrite size_set_seq. lia.
Qed.

(** *** A single worker taking the nodes in order *)

Lemma op_total tk (ins : list V) :
  total_update -> (is_step tk = true -> ins <> []) ->
  exists v, run_op init update assemble tk ins = Ok v.
Proof.
  intros Ht Hne. destruct tk as [c|c t|o]; simpl; [by eexists| |by eexists].
  destruct ins as [|own nbrs]; [by destruct Hne|].
  destruct (Ht own nbrs) as [v ->]. by eexists.
Qed.

Lemma step_node_has_deps i :
  is_step (node_task (node_at gr n i)) = true -> node_deps (node_at gr n i) <> [].
Proof.
  unfold node_at. destruct (i <? C); [done|].
  destruct (i <? (n + 1) * C); [done|].
  destruct (i =? (n + 1) * C); done.
Qed.

Lemma sequential_prefix k w j :
  1 <= w -> faithful encode decode -> total_update -> j <= node_count gr n ->
  exists m, schedule_run k w g fresh (map (fun i => [i]) (seq 0 j)) = Some (Ok m)
            /\ dom (m_store m) = set_seq 0 j.
Proof.
  intros Hw Hf Ht. induction j as [|j IH]; intros Hj.
  - exists fresh. split; [done|]. simpl. by rewrite dom_empty_L.
  - destruct IH as (m & Hrun & Hdom); [lia|].
    rewrite seq_S, map_app, run_schedule_app, Hrun.
    change (map (fun i => [i]) [0 + j]) with [[j]].
    assert (m_store m !! j = None) as Hfree.
    { apply not_elem_of_dom. rewrite Hdom, elem_of_set_seq. lia. }
    assert (exists ins, gather (m_store m) (node_deps (node_at gr n j)) = Some ins)
      as [ins Hins].
    { apply (mapM_is_Some_2 (fun d => m_store m !! d)).
      eapply Forall_impl; [apply node_at_deps_lt|]. simpl.
      intros d Hd. apply elem_of_dom. rewrite Hdom, elem_of_set_seq. lia. }
    destruct (op_total (node_task (node_at gr n j)) ins Ht) as [v Hv].
    { intros Hs Hnil. apply step_node_has_deps in Hs.
      unfold gather in Hins. apply length_mapM in Hins. subst ins.
      by destruct (node_deps (node_at gr n j)). }
    erewrite run_single;
      [|done|done|by apply lookup_graph_of; lia|done
       |by rewrite run_task_faithful].
    eexists. split; [done|]. cbn [m_store].
    rewrite dom_insert_L, Hdom. by rewrite set_seq_S_end_union_L.
Qed.

(** For every pool of at least one worker there is an execution: the
    sequential one realizes both outputs. *)
Lemma sequential_executes k w o :
  1 <= w -> faithful encode decode -> total_update ->
  exists v, execute init update assemble encode decode k w (graph_of gr n) o
              (sequential (graph_of gr n)) = Some (Ok v).
Proof.
  intros Hw Hf Ht. unfold execute, sequential. rewrite length_graph_of.
  replace (w <? 1) with false by (symmetry; apply Nat.ltb_ge; lia).
  destruct (sequential_prefix k w (node_count gr n) Hw Hf Ht) as (m & -> & Hdom); [done|].
  assert (output_id (graph_of gr n) o ∈ dom (m_store m)) as Ho.
  { rewrite Hdom, elem_of_set_seq. unfold node_count. destruct o; simpl; lia. }
  apply elem_of_dom in Ho as [v ->]. by exists v.
Qed.

End BuiltGraph.

(** ** The claims about the notebook *)

Section NotebookClaims.
Context {W E G Lazy Field : Type}.
Variable generate : dims -> dims -> Z -> W -> outcome E (Lazy * Lazy) * W.
Variable compute : Lazy -> Z -> G -> W -> outcome E Field * W.
Variable dask_threaded_get dask_multiprocessing_get : G.
Variable loops repeat : nat.


(** C4, as amended: [time_ch] does not check [num_workers].  For every
    value, also below 1, it hands the value to [compute] as it is, and it
    raises exactly when [generate_cahn_hilliard_data] or [compute] raises,
    with that exception. *)
Theorem time_ch_forwards_num_workers (num_workers : Z) (get : G) (shape chunks : dims)
  (n_steps : Z) (w : W) :
  match generate shape chunks n_steps w with
  | (Ok p, w1) =>
      trace_of (time_ch generate compute num_workers get shape chunks n_steps w)
      = [EvGenerate shape chunks n_steps; EvCompute Response num_workers get]
      /\ outcome_of (time_ch generate compute num_workers get shape chunks n_steps w)
         = match (compute (snd p) num_workers get w1).1 with
           | Ok _ => Ok PyNone
           | Raised e => Raised e
           end
  | (Raised e, _) =>
      outcome_of (time_ch generate compute num_workers get shape chunks n_steps w)
      = Raised e
  end.
Proof.
  rewrite time_ch_unfold. unfold trace_of, outcome_of.
  destruct (generate shape chunks n_steps w) as [[p|e] w1]; [|done].
  destruct (compute p.2 num_workers get w1) as [[f|e] w2]; done.
Qed.

(** C8: whatever its arguments and the outside state, [time_ch] returns
    [None] or passes on the exception of a collaborator, never another
    value; and the realized field has no influence on what it returns,
    does or records. *)
Theorem time_ch_returns_None (num_workers : Z) (get : G) (shape chunks : dims)
  (n_steps : Z) (w : W) :
  match outcome_of (time_ch generate compute num_workers get shape chunks n_steps w) with
  | Ok v =>
      v = PyNone
      /\ exists p w1 f w2,
           generate shape chunks n_steps w = (Ok p, w1)
           /\ compute (snd p) num_workers get w1 = (Ok f, w2)
  | Raised e =>
      (generate shape chunks n_steps w).1 = Raised e
      \/ exists p w1,
           generate shape chunks n_steps w = (Ok p, w1)
           /\ (compute (snd p) num_workers get w1).1 = Raised e
  end
  /\ forall (F' : Type) (post : Field -> F'),
       time_ch generate (with_field compute post) num_workers get shape chunks n_steps w
       = time_ch generate compute num_workers get shape chunks n_steps w.
Proof.
  split.
  - rewrite time_ch_unfold. unfold outcome_of.
    destruct (generate shape chunks n_steps w) as [[p|e] w1] eqn:Hg; simpl; [|by left].
    destruct (compute p.2 num_workers get w1) as [[f|e] w2] eqn:Hc; simpl.
    + split; [done|]. by exists p, w1, f, w2.
    + right. exists p, w1. by rewrite Hc.
  - intros F' post. rewrite !time_ch_unfold. unfold with_field.
    destruct (generate shape chunks n_steps w) as [[p|e] w1]; [|done].
    destruct (compute p.2 num_workers get w1) as [[f|e] w2]; done.
Qed.

(** C9: a call of [time_ch] whose graph construction returns makes one
    [compute] call, on position 1 of the tuple (the response), in the state
    the construction left, and ends as that call ends; it computes nothing
    when the construction raises.  A trial in which nothing raises computes
    the response once for every call [%timeit] makes, a run of the notebook
    in which nothing raises once for every call of its eight trials, and
    no run computes anything else.  What stands in position 0, the
    microstructure, makes no difference to [time_ch]. *)
Theorem only_response_computed (w : W) :
  (forall num_workers get shape chunks n_steps,
     match generate shape chunks n_steps w with
     | (Ok p, w1) =>
         (time_ch generate compute num_workers get shape chunks n_steps w).1
         = (match (compute (item Response p) num_workers get w1).1 with
            | Ok _ => Ok PyNone
            | Raised e => Raised e
            end,
            (compute (item Response p) num_workers get w1).2)
         /\ computed (trace_of (time_ch generate compute num_workers get
                                  shape chunks n_steps w))
            = [Response]
     | (Raised _, _) =>
         computed (trace_of (time_ch generate compute num_workers get
                               shape chunks n_steps w))
         = []
     end)
  /\ (forall label get n_proc,
        Forall (eq Response)
          (computed (trace_of (trial generate compute loops repeat label get n_proc w)))
        /\ match outcome_of (trial generate compute loops repeat label get n_proc w) with
           | Ok _ =>
               computed (trace_of (trial generate compute loops repeat label get n_proc w))
               = replicate (calls_per_trial loops repeat) Response
           | Raised _ => True
           end)
  /\ Forall (fun o => o = Response /\ position o = 1)
       (computed (trace_of (notebook generate compute dask_threaded_get
                              dask_multiprocessing_get loops repeat w)))
  /\ match outcome_of (notebook generate compute dask_threaded_get
                         dask_multiprocessing_get loops repeat w) with
     | Ok _ =>
         computed (trace_of (notebook generate compute dask_threaded_get
                               dask_multiprocessing_get loops repeat w))
         = replicate (8 * calls_per_trial loops repeat) Response
     | Raised _ => True
     end
  /\ (forall other num_workers get shape chunks n_steps,
        time_ch (with_microstructure generate other) compute num_workers get shape chunks n_steps w
        = time_ch generate compute num_workers get shape chunks n_steps w).
Proof.
  split; [|split; [|split; [|split]]].
  - intros num_workers get shape chunks n_steps.
    rewrite time_ch_unfold. unfold trace_of. cbn [item].
    destruct (generate shape chunks n_steps w) as [[p|e] w1]; [|done].
    destruct (compute p.2 num_workers get w1) as [[f|e] w2]; done.
  - intros label get n_proc. split.
    + apply computed_cell_events. apply emits_only_trial.
    + pose proof (trial_yields generate compute loops repeat label get n_proc w) as H.
      unfold trace_of, outcome_of.
      destruct (trial generate compute loops repeat label get n_proc w)
        as [[[u|e] w1] t]; simpl; [|done].
      subst t. apply computed_trial_trace.
  - pose proof (computed_cell_events _
      (emits_only_notebook generate compute dask_threaded_get dask_multiprocessing_get
         loops repeat w)) as H.
    eapply Forall_impl; [exact H|]. by intros o <-.
  - unfold notebook, threaded_cell, multiprocessing_cell, bind, trace_of, outcome_of.
    pose proof (timing_loop_yields generate compute loops repeat "thread(s)"
                  dask_threaded_get worker_counts w) as H1.
    destruct (timing_loop _ _ _ _ "thread(s)" _ worker_counts w) as [[[u|e] w1] t1];
      [|done].
    pose proof (timing_loop_yields generate compute loops repeat "process(es)"
                  dask_multiprocessing_get worker_counts w1) as H2.
    destruct (timing_loop _ _ _ _ "process(es)" _ worker_counts w1) as [[[u'|e] w2] t2];
      [|done].
    simpl. subst t1 t2. rewrite computed_app, !computed_trial_traces.
    rewrite <- replicate_add. f_equal. unfold worker_counts. simpl. lia.
  - intros other num_workers get shape chunks n_steps.
    rewrite !time_ch_unfold. unfold with_microstructure.
    destruct (generate shape chunks n_steps w) as [[p|e] w1]; done.
Qed.

Lemma strictly_descending_worker_counts : strictly_descending worker_counts.
Proof. unfold strictly_descending, worker_counts. repeat constructor; lia. Qed.

Lemma strictly_descending_prefix (pre : list Z) x post :
  worker_counts = pre ++ x :: post -> strictly_descending pre.
Proof.
  intros H. pose proof strictly_descending_worker_counts as Hs.
  rewrite H in Hs. unfold strictly_descending in *.
  by apply StronglySorted_app_1_l in Hs.
Qed.

(** C6: the table the notebook prints is grouped by backend, the threaded
    rows before the multiprocessing rows, with the worker counts strictly
    descending inside each group; when nothing raises it is the full table
    of 8, 4, 2, 1 workers for each backend. *)
Theorem report_grouped_descending (w : W) :
  grouped_descending
    (report_rows (trace_of (notebook generate compute dask_threaded_get
                              dask_multiprocessing_get loops repeat w)))
  /\ match outcome_of (notebook generate compute dask_threaded_get
                         dask_multiprocessing_get loops repeat w) with
     | Ok _ =>
         report_rows (trace_of (notebook generate compute dask_threaded_get
                                  dask_multiprocessing_get loops repeat w))
         = full_table
     | Raised _ => True
     end.
Proof.
  unfold notebook, threaded_cell, multiprocessing_cell, bind, trace_of, outcome_of.
  pose proof (timing_loop_rows generate compute loops repeat "thread(s)" THREADED
                dask_threaded_get worker_counts w eq_refl) as H1.
  destruct (timing_loop _ _ _ _ "thread(s)" _ worker_counts w) as [[[u|e] w1] t1].
  - destruct H1 as [H1 _].
    pose proof (timing_loop_rows generate compute loops repeat "process(es)" MULTIPROCESS
                  dask_multiprocessing_get worker_counts w1 eq_refl) as H2.
    destruct (timing_loop _ _ _ _ "process(es)" _ worker_counts w1) as [[[u'|e] w2] t2];
      simpl; unfold report_rows; rewrite H1.
    + destruct H2 as [H2 _]. specialize (H2 []). rewrite app_nil_r in H2.
      rewrite H2. simpl. split; [|done].
      exists worker_counts, worker_counts. split; [done|].
      split; apply strictly_descending_worker_counts.
    + destruct H2 as (pre & x & post & Hns & Hrows & _). unfold report_rows in Hrows.
      rewrite Hrows. split; [|done].
      exists worker_counts, pre. split; [done|]. split.
      * apply strictly_descending_worker_counts.
      * by eapply strictly_descending_prefix.
  - destruct H1 as (pre & x & post & Hns & Hrows & _). simpl. rewrite Hrows.
    split; [|done]. exists pre, []. split; [by rewrite app_nil_r|]. split.
    + by eapply strictly_descending_prefix.
    + constructor.
Qed.


(** C10: with the default arguments every chunk dimension divides the
    volume dimension, the grid has 48 chunks, all of the full chunk size,
    and every call of the cells to [generate_cahn_hilliard_data] is made
    with these arguments. *)
Theorem default_chunks_divide_evenly (w : W) :
  default_shape = (48, 200, 200)%Z /\ default_chunks = (1, 200, 200)%Z
  /\ default_n_steps = 100%Z
  /\ divides_evenly default_shape default_chunks
  /\ chunk_count (grid_of default_shape default_chunks) = 48
  /\ block_sizes 48 1 = replicate 48 1%Z
  /\ block_sizes 200 200 = [200%Z]
  /\ valid_params ExactOnly
       {| p_shape := default_shape; p_chunk := default_chunks;
          p_n_steps := default_n_steps |} = true
  /\ Forall cell_event
       (trace_of (notebook generate compute dask_threaded_get
                    dask_multiprocessing_get loops repeat w)).
Proof.
  repeat split; try reflexivity.
  apply emits_only_notebook.
Qed.

End NotebookClaims.

(** *** The claims on a simulated run *)


(** C4 as stated fails: with zero workers [time_ch] returns [None] under a
    scheduler that ignores the worker count, and under a pool scheduler it
    raises the scheduler's own error, which is no [ExecutionError]. *)
Lemma zero_workers_not_execution_error :
  time_ch sim_generate (sim_compute None) 0 SyncGet
    default_shape default_chunks default_n_steps 0
  = (Ok PyNone, 1,
     [EvGenerate default_shape default_chunks default_n_steps;
      EvCompute Response 0 SyncGet])
  /\ outcome_of (time_ch sim_generate (sim_compute None) 0 ThreadedGet
                   default_shape default_chunks default_n_steps 0)
     = Raised (PyError "ValueError")
  /\ Raised (PyError "ValueError") <> (Raised ExecutionError : outcome error pyval).
Proof. split; [|split]; [vm_compute; reflexivity..|discriminate]. Qed.



(** The printed lines and the table of a simulated run in which nothing
    raises. *)
Example notebook_output :
  printed (trace_of (notebook sim_generate (sim_compute None) ThreadedGet
                       MultiprocessingGet sim_loops sim_repeat 0))
  = ["8 thread(s)"; "4 thread(s)"; "2 thread(s)"; "1 thread(s)";
     "8 process(es)"; "4 process(es)"; "2 process(es)"; "1 process(es)"]
  /\ report_rows (trace_of (notebook sim_generate (sim_compute None) ThreadedGet
                              MultiprocessingGet sim_loops sim_repeat 0))
     = full_table.
Proof. split; vm_compute; reflexivity. Qed.

(** ** The claims about graph construction and execution *)

Section ModelClaims.
Context {V B : Type}.
Variable init : nat -> V.
Variable update : V -> list V -> outcome string V.
Variable assemble : list V -> V.
Variable encode : V -> B.
Variable decode : B -> option V.

(** C1: for every parameter set the construction accepts, two executions
    of the built graph that realize the response realize the same field,
    whatever the backends, the worker counts and the schedules the pools
    followed, provided values passed between processes arrive as they
    were sent. *)
Theorem determinism (pol : remainder_policy) (p : SimulationParams)
  (g : ComputationGraph) (k1 k2 : scheduler_kind) (w1 w2 : nat)
  (s1 s2 : list (list nat)) (v1 v2 : V) :
  faithful encode decode ->
  build pol p = Ok g ->
  execute init update assemble encode decode k1 w1 g Response s1 = Some (Ok v1) ->
  execute init update assemble encode decode k2 w2 g Response s2 = Some (Ok v2) ->
  v1 = v2.
Proof.
  intros Hf Hb H1 H2. pose proof (wf_build _ _ _ Hb) as Hwf.
  unfold execute in H1, H2.
  destruct (w1 <? 1); [done|]. destruct (w2 <? 1); [done|].
  destruct (run_schedule _ _ _ _ _ k1 w1 (g_nodes g) fresh s1) as [[m1|e1]|] eqn:R1;
    [|done|done].
  destruct (run_schedule _ _ _ _ _ k2 w2 (g_nodes g) fresh s2) as [[m2|e2]|] eqn:R2;
    [|done|done].
  destruct (m_store m1 !! output_id g Response) as [u1|] eqn:L1; [|done].
  destruct (m_store m2 !! output_id g Response) as [u2|] eqn:L2; [|done].
  injection H1 as <-. injection H2 as <-.
  eapply (justified_agree init update assemble (g_nodes g) (m_store m1) (m_store m2));
    [exact Hwf| | |exact L1|exact L2].
  - eapply run_schedule_justified; [exact Hf|exact R1|apply justified_fresh].
  - eapply run_schedule_justified; [exact Hf|exact R2|apply justified_fresh].
Qed.

(** C3: once the graph is built and before a pool has taken a batch, no
    step update has run and the response is not realized; an execution
    that realizes the response runs every step of every chunk once, so
    all of the chunks times n_steps step updates run during execution. *)
Theorem build_runs_no_step (pol : remainder_policy) (p : SimulationParams)
  (g : ComputationGraph) (k : scheduler_kind) (w : nat) (sched : list (list nat))
  (v : V) :
  faithful encode decode ->
  build pol p = Ok g ->
  execute init update assemble encode decode k w g Response sched = Some (Ok v) ->
  steps_run init update assemble encode decode k w g [] = Some 0
  /\ execute init update assemble encode decode k w g Response [] = None
  /\ steps_run init update assemble encode decode k w g sched
     = Some (chunk_count (grid_of (p_shape p) (p_chunk p)) * Z.to_nat (p_n_steps p)).
Proof.
  intros Hf Hb Hx. apply build_Ok in Hb as [_ ->].
  unfold execute in *. destruct (w <? 1); [done|].
  split; [done|]. split; [done|].
  unfold steps_run.
  destruct (run_schedule _ _ _ _ _ k w _ fresh sched) as [[m|e]|] eqn:R; [|done|done].
  simpl in Hx.
  destruct (m_store m !! _) as [u|] eqn:L; [|done].
  f_equal. eapply steps_of_complete.
  - eapply run_schedule_justified; [exact Hf|exact R|apply justified_fresh].
  - eapply run_schedule_counted; [exact R|apply counted_fresh].
  - by eexists.
Qed.

(** C5: with n_steps below 1, or a chunk larger than the volume on some
    axis, construction fails with [ConfigurationError]; [time_ch] then
    raises it from the construction call, before any [compute] call is
    made; and an execution never fails with [ConfigurationError]: with a
    pool of no worker it fails with [ExecutionError], whatever the
    schedule, and with a pool of at least one worker it fails only with
    the failure of a worker. *)
Theorem build_rejects_bad_params (pol : remainder_policy) (p : SimulationParams) :
  (p_n_steps p < 1)%Z \/ chunk_exceeds (p_chunk p) (p_shape p) ->
  build pol p = Raised ConfigurationError
  /\ (forall (W G F : Type)
        (compute : ComputationGraph * output -> Z -> G -> W -> outcome error F * W)
        (num_workers : Z) (get : G) (w : W),
        time_ch (model_generate pol) compute num_workers get
          (p_shape p) (p_chunk p) (p_n_steps p) w
        = (Raised ConfigurationError, w,
           [EvGenerate (p_shape p) (p_chunk p) (p_n_steps p)]))
  /\ (forall (g : ComputationGraph) (k : scheduler_kind) (w : nat) (o : output)
        (sched : list (list nat)) (e : error),
        execute init update assemble encode decode k 0 g o sched
        = Some (Raised ExecutionError)
        /\ (execute init update assemble encode decode k w g o sched = Some (Raised e) ->
            e <> ConfigurationError
            /\ (w < 1 /\ e = ExecutionError
                \/ 1 <= w /\ exists cause, e = WorkerFailure cause))).
Proof.
  intros Hbad.
  assert (build pol p = Raised ConfigurationError) as Hb.
  { unfold build. destruct (valid_params pol p) eqn:Hv; [|done]. exfalso.
    unfold valid_params, axis_ok in Hv.
    repeat (apply andb_prop in Hv as [Hv ?]).
    unfold chunk_exceeds in Hbad. lia. }
  split; [exact Hb|]. split.
  - intros W G F compute num_workers get w. rewrite time_ch_unfold.
    unfold model_generate. destruct p as [sh ch n]. simpl in *. by rewrite Hb.
  - intros g k w o sched e. split; [reflexivity|]. unfold execute.
    destruct (w <? 1) eqn:Hw.
    { apply Nat.ltb_lt in Hw. intros [= <-]. split; [done|]. by left. }
    apply Nat.ltb_ge in Hw.
    destruct (run_schedule _ _ _ _ _ k w (g_nodes g) fresh sched) as [[m|e']|] eqn:R;
      [by destruct (m_store m !! output_id g o)| |done].
    intros [= <-]. apply run_schedule_raises in R as [cause ->].
    split; [done|]. right. split; [done|]. by exists cause.
Qed.

End ModelClaims.

(** *** The claims on the small simulation *)

Lemma demo_faithful : faithful demo_encode demo_decode.
Proof.
  intros v. unfold demo_decode, demo_encode. f_equal. apply reverse_involutive.
Defined.

Lemma demo_build : build ExactOnly demo_params = Ok demo_graph.
Proof. vm_compute. reflexivity. Defined.

(** C1 on the simulation: one thread taking the nodes in order and four
    processes taking a step of all chunks at a time realize the same
    response. *)
Lemma determinism_witness :
  execute demo_init demo_update demo_assemble demo_encode demo_decode
    THREADED 1 demo_graph Response (sequential demo_graph)
  = Some (Ok [12; 13; 14; 15]%Z)
  /\ execute demo_init demo_update demo_assemble demo_encode demo_decode
       MULTIPROCESS 4 demo_graph Response demo_parallel
     = Some (Ok [12; 13; 14; 15]%Z)
  /\ [12; 13; 14; 15]%Z = [12; 13; 14; 15]%Z.
Proof.
  split; [vm_compute; reflexivity|]. split; [vm_compute; reflexivity|].
  apply (determinism demo_init demo_update demo_assemble demo_encode demo_decode
           ExactOnly demo_params demo_graph THREADED MULTIPROCESS 1 4
           (sequential demo_graph) demo_parallel).
  - exact demo_faithful.
  - exact demo_build.
  - vm_compute. reflexivity.
  - vm_compute. reflexivity.
Defined.

(** C3 on the simulation: 4 chunks and 2 steps make 8 step updates, all
    run by the pool. *)
Lemma build_runs_no_step_witness :
  steps_run demo_init demo_update demo_assemble demo_encode demo_decode
    MULTIPROCESS 4 demo_graph [] = Some 0
  /\ execute demo_init demo_update demo_assemble demo_encode demo_decode
       MULTIPROCESS 4 demo_graph Response [] = None
  /\ steps_run demo_init demo_update demo_assemble demo_encode demo_decode
       MULTIPROCESS 4 demo_graph demo_parallel
     = Some (chunk_count (grid_of (p_shape demo_params) (p_chunk demo_params))
             * Z.to_nat (p_n_steps demo_params)).
Proof.
  apply (build_runs_no_step demo_init demo_update demo_assemble demo_encode demo_decode
           ExactOnly demo_params demo_graph MULTIPROCESS 4 demo_parallel
           [12; 13; 14; 15]%Z).
  - exact demo_faithful.
  - exact demo_build.
  - vm_compute. reflexivity.
Defined.

(** C5 on two parameter sets: no step at all, and a chunk of height 30 in a
    volume of height 20. *)
Lemma build_rejects_bad_params_witness :
  build RaggedLast
    {| p_shape := (8, 20, 20)%Z; p_chunk := (1, 20, 20)%Z; p_n_steps := 0 |}
  = Raised ConfigurationError
  /\ build RaggedLast
       {| p_shape := (8, 20, 20)%Z; p_chunk := (1, 30, 20)%Z; p_n_steps := 5 |}
     = Raised ConfigurationError.
Proof.
  split.
  - apply (build_rejects_bad_params demo_init demo_update demo_assemble demo_encode
             demo_decode RaggedLast
             {| p_shape := (8, 20, 20)%Z; p_chunk := (1, 20, 20)%Z; p_n_steps := 0 |}).
    left. simpl. lia.
  - apply (build_rejects_bad_params demo_init demo_update demo_assemble demo_encode
             demo_decode RaggedLast
             {| p_shape := (8, 20, 20)%Z; p_chunk := (1, 30, 20)%Z; p_n_steps := 5 |}).
    right. unfold chunk_exceeds. simpl. lia.
Defined.

(** The specification's first scenario is accepted, and lays out 8 chunks
    of 5 steps each. *)
Example scenario_1_builds :
  build ExactOnly
    {| p_shape := (8, 20, 20)%Z; p_chunk := (1, 20, 20)%Z; p_n_steps := 5 |}
  = Ok (graph_of (8, 1, 1) 5)
  /\ length (g_nodes (graph_of (8, 1, 1) 5)) = 50.
Proof. split; vm_compute; reflexivity. Qed.

(** The specification's second scenario: a request for a pool of no
    worker fails with [ExecutionError], whatever the graph, the backend and
    the schedule. *)
Example scenario_2_no_worker :
  execute demo_init demo_update demo_assemble demo_encode demo_decode
    THREADED 0 demo_graph Response (sequential demo_graph)
  = Some (Raised ExecutionError)
  /\ execute demo_init demo_update demo_assemble demo_encode demo_decode
       MULTIPROCESS 0 demo_graph Response []
     = Some (Raised ExecutionError).
Proof. split; reflexivity. Qed.

(** ** A program logic for traces *)

Section ScanFacts.
Context {G St : Type}.
Variable next : St -> event G -> St.
Variable allowed : St -> event G -> Prop.

Lemma accepted_app s (t1 t2 : list (event G)) :
  accepted next allowed s (t1 ++ t2)
  <-> accepted next allowed s t1 /\ accepted next allowed (final next s t1) t2.
Proof.
  revert s. induction t1 as [|ev t1 IH]; intros s; simpl.
  - unfold final. simpl. tauto.
  - rewrite IH. unfold final. simpl. tauto.
Qed.

Lemma final_app s (t1 t2 : list (event G)) :
  final next s (t1 ++ t2) = final next (final next s t1) t2.
Proof. unfold final. apply fold_left_app. Qed.

End ScanFacts.

Section LogicFacts.
Context {W E G St : Type}.
Variable next : St -> event G -> St.
Variable allowed : St -> event G -> Prop.
Implicit Types (P Q R : St -> Prop).

Local Abbreviation M := (@M W E G).
Local Abbreviation hoare := (@hoare W E G St next allowed).

Lemma hoare_ret {A} (a : A) P R : hoare P (ret a) P R.
Proof. intros w s Hs. simpl. done. Qed.

Lemma hoare_emit ev P Q R :
  (forall s, P s -> allowed s ev /\ Q (next s ev)) -> hoare P (emit ev) Q R.
Proof. intros H w s Hs. destruct (H s Hs). simpl. done. Qed.


Lemma hoare_ext {A} (m m' : M A) P Q R :
  (forall w, m w = m' w) -> hoare P m' Q R -> hoare P m Q R.
Proof. intros Heq H w s Hs. rewrite Heq. by apply H. Qed.

Lemma hoare_bind {A B} (m : M A) (f : A -> M B) P Q' Q R :
  hoare P m Q' R -> (forall a, hoare Q' (f a) Q R) -> hoare P (bind m f) Q R.
Proof.
  intros Hm Hf w s Hs. unfold bind. specialize (Hm w s Hs).
  destruct (m w) as [[[a|e] w1] t1]; [|done].
  destruct Hm as [Ha HQ]. specialize (Hf a w1 _ HQ).
  destruct (f a w1) as [[[b|e] w2] t2]; destruct Hf as [Ha2 H2];
    rewrite accepted_app, final_app; done.
Qed.

Lemma hoare_iterate {A} (I : nat -> St -> Prop) (stmt : M A) R n :
  (forall i, i < n -> hoare (I i) stmt (I (S i)) R) ->
  hoare (I 0) (iterate n stmt) (I n) R.
Proof.
  intros H.
  assert (forall k j, j + k = n -> hoare (I j) (iterate k stmt) (I n) R) as Hgen.
  { induction k as [|k IH]; intros j Hj; simpl.
    - replace n with j by lia. apply hoare_ret.
    - eapply hoare_bind; [apply H; lia|]. intros _. apply IH. lia. }
  by apply Hgen.
Qed.

Lemma hoare_for_each {A} (I : list A -> St -> Prop) (body : A -> M unit) R xs :
  (forall pre x post, xs = pre ++ x :: post ->
                      hoare (I pre) (body x) (I (pre ++ [x])) R) ->
  hoare (I []) (for_each xs body) (I xs) R.
Proof.
  intros H.
  assert (forall rest pre, xs = pre ++ rest ->
                           hoare (I pre) (for_each rest body) (I xs) R) as Hgen.
  { induction rest as [|x rest IH]; intros pre Hxs; simpl.
    - rewrite app_nil_r in Hxs. subst pre. apply hoare_ret.
    - eapply hoare_bind; [by eapply H|]. intros _. apply IH.
      by rewrite <- app_assoc. }
  by apply Hgen.
Qed.

Lemma hoare_time_ch {Lazy Field : Type}
  (generate : dims -> dims -> Z -> W -> outcome E (Lazy * Lazy) * W)
  (compute : Lazy -> Z -> G -> W -> outcome E Field * W)
  num_workers get shape chunks n_steps P Q R :
  (forall s, P s ->
     allowed s (EvGenerate shape chunks n_steps)
     /\ R (next s (EvGenerate shape chunks n_steps))
     /\ allowed (next s (EvGenerate shape chunks n_steps))
          (EvCompute Response num_workers get)
     /\ Q (next (next s (EvGenerate shape chunks n_steps))
             (EvCompute Response num_workers get))
     /\ R (next (next s (EvGenerate shape chunks n_steps))
             (EvCompute Response num_workers get))) ->
  hoare P (time_ch generate compute num_workers get shape chunks n_steps) Q R.
Proof.
  intros H w s Hs. destruct (H s Hs) as (H1 & H2 & H3 & H4 & H5).
  rewrite time_ch_unfold.
  destruct (generate shape chunks n_steps w) as [[p|e] w1]; [|simpl; done].
  destruct (compute p.2 num_workers get w1) as [[f|e] w2]; simpl; done.
Qed.

(** Reading a triple off a run. *)
Lemma hoare_run {A} (m : M A) P Q R w s :
  hoare P m Q R -> P s ->
  accepted next allowed s (trace_of (m w))
  /\ match outcome_of (m w) with
     | Ok _ => Q (final next s (trace_of (m w)))
     | Raised _ => R (final next s (trace_of (m w)))
     end.
Proof.
  intros H Hs. specialize (H w s Hs). unfold trace_of, outcome_of.
  destruct (m w) as [[[a|e] w1] t]; simpl; done.
Qed.

End LogicFacts.

(** ** The cells under the program logic *)

Section CellLogic.
Context {W E G Lazy Field St : Type}.
Variable generate : dims -> dims -> Z -> W -> outcome E (Lazy * Lazy) * W.
Variable compute : Lazy -> Z -> G -> W -> outcome E Field * W.
Variable loops repeat : nat.
Variable next : St -> event G -> St.
Variable allowed : St -> event G -> Prop.
Implicit Types (P Q R : St -> Prop).

Local Abbreviation hoare := (@hoare W E G St next allowed).

(** A trial, with a state predicate for each of its program points:
    [Iout done] after the timed runs of [done] calls each, [Iin done j]
    before call [j] of the timed run that follows them.  The timed runs
    are the calibration runs and the reported runs of [%timeit]. *)
Lemma hoare_trial label get n_proc P (Iout : list nat -> St -> Prop)
  (Iin : list nat -> nat -> St -> Prop) Q R :
  (forall s, P s ->
     allowed s (EvPrint [PyInt n_proc; PyStr label])
     /\ Iout [] (next s (EvPrint [PyInt n_proc; PyStr label]))) ->
  (forall done number rest s,
     run_numbers loops repeat = done ++ number :: rest -> Iout done s ->
     allowed s EvTimerStart /\ Iin done 0 (next s EvTimerStart)) ->
  (forall done number rest j s,
     run_numbers loops repeat = done ++ number :: rest -> j < number -> Iin done j s ->
     allowed s (EvGenerate default_shape default_chunks default_n_steps)
     /\ R (next s (EvGenerate default_shape default_chunks default_n_steps))
     /\ allowed (next s (EvGenerate default_shape default_chunks default_n_steps))
          (EvCompute Response n_proc get)
     /\ Iin done (S j)
          (next (next s (EvGenerate default_shape default_chunks default_n_steps))
             (EvCompute Response n_proc get))
     /\ R (next (next s (EvGenerate default_shape default_chunks default_n_steps))
             (EvCompute Response n_proc get))) ->
  (forall done number rest s,
     run_numbers loops repeat = done ++ number :: rest -> Iin done number s ->
     allowed s EvTimerStop /\ Iout (done ++ [number]) (next s EvTimerStop)) ->
  (forall s, Iout (run_numbers loops repeat) s ->
     allowed s (EvTimeitReport loops repeat)
     /\ Q (next s (EvTimeitReport loops repeat))) ->
  hoare P (trial generate compute loops repeat label get n_proc) Q R.
Proof.
  intros Hprint Hstart Hcall Hstop Hreport.
  eapply hoare_ext; [apply trial_runs|].
  eapply hoare_bind; [apply hoare_emit, Hprint|]. intros _.
  eapply hoare_bind; [|intros _; apply hoare_emit, Hreport].
  apply (hoare_for_each next allowed Iout). intros done number rest Hn.
  unfold timed_run.
  eapply hoare_bind; [apply hoare_emit; intros s Hs; by eapply Hstart|]. intros _.
  eapply hoare_bind; [|intros _; apply hoare_emit; intros s Hs; by eapply Hstop].
  apply (hoare_iterate next allowed (Iin done)). intros j Hj.
  unfold time_ch_default. apply hoare_time_ch. intros s Hs. by eapply Hcall.
Qed.

End CellLogic.

(** ** The record of the graphs built and computed *)

Section RecordFacts.
Context {Lazy : Type}.
Implicit Types (log : list (call_record Lazy)).

Lemma waiting_app start log1 log2 :
  waiting start (log1 ++ log2) = waiting (waiting start log1) log2.
Proof. apply fold_left_app. Qed.

Lemma fresh_graphs_app start log1 log2 :
  fresh_graphs start (log1 ++ log2)
  <-> fresh_graphs start log1 /\ fresh_graphs (waiting start log1) log2.
Proof.
  revert start. induction log1 as [|c log1 IH]; intros start.
  - simpl. tauto.
  - destruct c; cbn [app fresh_graphs]; rewrite IH; unfold waiting; simpl; tauto.
Qed.

End RecordFacts.

Section RecordingFacts.
Context {W E G Lazy Field : Type}.
Variable generate : dims -> dims -> Z -> W -> outcome E (Lazy * Lazy) * W.
Variable compute : Lazy -> Z -> G -> W -> outcome E Field * W.
Variable dask_threaded_get dask_multiprocessing_get : G.
Variable loops repeat : nat.

Local Abbreviation MR := (@M (W * list (call_record Lazy)) E G).
Local Abbreviation M := (@M W E G).

(** *** The recording is transparent *)

Lemma transparent_ret {A} (a : A) : transparent (ret a : MR A) (ret a : M A).
Proof. by intros [w l]. Qed.

Lemma transparent_emit ev : transparent (emit ev : MR unit) (emit ev : M unit).
Proof. by intros [w l]. Qed.

Lemma transparent_bind {A B} (m' : MR A) (m : M A) (f' : A -> MR B) (f : A -> M B) :
  transparent m' m -> (forall a, transparent (f' a) (f a)) ->
  transparent (bind m' f') (bind m f).
Proof.
  intros Hm Hf wl. unfold bind. specialize (Hm wl). unfold erase in *.
  destruct (m' wl) as [[[a|e] wl1] t1]; simpl in Hm; rewrite <- Hm; [|done].
  specialize (Hf a wl1).
  destruct (f' a wl1) as [[r wl2] t2]; simpl in *. by rewrite <- Hf.
Qed.

Lemma transparent_iterate {A} (m' : MR A) (m : M A) n :
  transparent m' m -> transparent (iterate n m') (iterate n m).
Proof.
  intros Hm. induction n as [|n IH]; simpl.
  - apply transparent_ret.
  - apply transparent_bind; [done|]. intros _. exact IH.
Qed.

Lemma transparent_for_each {A} (xs : list A) (body' : A -> MR unit) (body : A -> M unit) :
  (forall x, transparent (body' x) (body x)) ->
  transparent (for_each xs body') (for_each xs body).
Proof.
  intros Hb. induction xs as [|x xs IH]; simpl.
  - apply transparent_ret.
  - apply transparent_bind; [apply Hb|]. intros _. exact IH.
Qed.

Lemma transparent_time_ch num_workers get shape chunks n_steps :
  transparent
    (time_ch (recording_generate generate) (recording_compute compute)
       num_workers get shape chunks n_steps)
    (time_ch generate compute num_workers get shape chunks n_steps).
Proof.
  intros [w l]. rewrite !time_ch_unfold.
  unfold recording_generate, recording_compute, erase. simpl.
  destruct (generate shape chunks n_steps w) as [[p|e] w1]; [|done]. simpl.
  destruct (compute p.2 num_workers get w1) as [[f|e] w2]; done.
Qed.

Lemma transparent_timing_loop label get ns :
  transparent
    (timing_loop (recording_generate generate) (recording_compute compute)
       loops repeat label get ns)
    (timing_loop generate compute loops repeat label get ns).
Proof.
  apply transparent_for_each. intros n. unfold trial.
  apply transparent_bind; [apply transparent_emit|]. intros _. unfold timeit.
  assert (forall number,
    transparent
      (timed_run number
         (time_ch_default (recording_generate generate) (recording_compute compute) n get))
      (timed_run number (time_ch_default generate compute n get))) as Hrun.
  { intros number. unfold timed_run.
    apply transparent_bind; [apply transparent_emit|]. intros _.
    apply transparent_bind; [|intros _; apply transparent_emit].
    apply transparent_iterate, transparent_time_ch. }
  apply transparent_bind; [by apply transparent_for_each|]. intros _.
  apply transparent_bind; [|intros _; apply transparent_emit].
  by apply transparent_iterate.
Qed.

Lemma transparent_notebook :
  transparent
    (notebook (recording_generate generate) (recording_compute compute)
       dask_threaded_get dask_multiprocessing_get loops repeat)
    (notebook generate compute dask_threaded_get dask_multiprocessing_get loops repeat).
Proof.
  unfold notebook, threaded_cell, multiprocessing_cell.
  apply transparent_bind; [|intros _]; apply transparent_timing_loop.
Qed.

(** *** What the record shows *)

Implicit Types (I R : W * list (call_record Lazy) -> Prop).

Lemma keeps_ret {A} (a : A) I R : keeps I (ret a : MR A) R.
Proof. by intros wl H. Qed.

Lemma keeps_emit ev I R : keeps I (emit ev : MR unit) R.
Proof. by intros wl H. Qed.

Lemma keeps_bind {A B} (m : MR A) (f : A -> MR B) I R :
  keeps I m R -> (forall a, keeps I (f a) R) -> keeps I (bind m f) R.
Proof.
  intros Hm Hf wl H. unfold bind. specialize (Hm wl H).
  destruct (m wl) as [[[a|e] wl1] t1]; [|done].
  specialize (Hf a wl1 Hm). by destruct (f a wl1) as [[[b|e] wl2] t2].
Qed.

Lemma keeps_iterate {A} (m : MR A) n I R : keeps I m R -> keeps I (iterate n m) R.
Proof.
  intros Hm. induction n as [|n IH]; simpl.
  - apply keeps_ret.
  - apply keeps_bind; [done|]. intros _. exact IH.
Qed.

Lemma keeps_for_each {A} (xs : list A) (body : A -> MR unit) I R :
  (forall x, keeps I (body x) R) -> keeps I (for_each xs body) R.
Proof.
  intros Hb. induction xs as [|x xs IH]; simpl.
  - apply keeps_ret.
  - apply keeps_bind; [apply Hb|]. intros _. exact IH.
Qed.

(** One call of [time_ch]: the tuple is built when none is waiting, and the
    array computed is the second element of that tuple. *)
Lemma keeps_time_ch num_workers get shape chunks n_steps :
  keeps settled
    (time_ch (recording_generate generate) (recording_compute compute)
       num_workers get shape chunks n_steps)
    in_order.
Proof.
  intros [w l] [Hf Hw]. rewrite time_ch_unfold.
  unfold recording_generate, recording_compute, settled, in_order in *. simpl in *.
  destruct (generate shape chunks n_steps w) as [[p|e] w1]; simpl; [|exact Hf].
  assert (fresh_graphs None ((l ++ [Built p]) ++ [Computed p.2])) as Hfresh.
  { rewrite !fresh_graphs_app, !waiting_app, Hw. simpl.
    repeat split; try done. by exists p. }
  destruct (compute p.2 num_workers get w1) as [[f|e] w2]; simpl; [|exact Hfresh].
  split; [exact Hfresh|]. by rewrite !waiting_app.
Qed.

Lemma keeps_timing_loop label get ns :
  keeps settled
    (timing_loop (recording_generate generate) (recording_compute compute)
       loops repeat label get ns)
    in_order.
Proof.
  apply keeps_for_each. intros n. unfold trial.
  apply keeps_bind; [apply keeps_emit|]. intros _. unfold timeit.
  assert (forall number,
    keeps settled
      (timed_run number
         (time_ch_default (recording_generate generate) (recording_compute compute) n get))
      in_order) as Hrun.
  { intros number. unfold timed_run.
    apply keeps_bind; [apply keeps_emit|]. intros _.
    apply keeps_bind; [|intros _; apply keeps_emit].
    apply keeps_iterate, keeps_time_ch. }
  apply keeps_bind; [by apply keeps_for_each|]. intros _.
  apply keeps_bind; [|intros _; apply keeps_emit].
  by apply keeps_iterate.
Qed.

Lemma keeps_notebook :
  keeps settled
    (notebook (recording_generate generate) (recording_compute compute)
       dask_threaded_get dask_multiprocessing_get loops repeat)
    in_order.
Proof.
  unfold notebook, threaded_cell, multiprocessing_cell.
  apply keeps_bind; [|intros _]; apply keeps_timing_loop.
Qed.

End RecordingFacts.

(** ** Further properties of the notebook *)

Section NotebookProperties.
Context {W E G Lazy Field : Type}.
Variable generate : dims -> dims -> Z -> W -> outcome E (Lazy * Lazy) * W.
Variable compute : Lazy -> Z -> G -> W -> outcome E Field * W.
Variable dask_threaded_get dask_multiprocessing_get : G.
Variable loops repeat : nat.

Local Abbreviation timing_loop := (timing_loop generate compute loops repeat).
Local Abbreviation notebook' :=
  (notebook (recording_generate generate) (recording_compute compute)
     dask_threaded_get dask_multiprocessing_get loops repeat).
Local Abbreviation notebook :=
  (notebook generate compute dask_threaded_get dask_multiprocessing_get loops repeat).

Lemma timer_timing_loop label get ns :
  hoare timer_next timer_allowed (eq false) (timing_loop label get ns)
    (eq false) (eq true).
Proof.
  apply (hoare_for_each timer_next timer_allowed (fun _ => eq false)).
  intros pre x post _.
  apply (hoare_trial generate compute loops repeat timer_next timer_allowed
           label get x (eq false) (fun _ => eq false) (fun _ _ => eq true));
    intros; subst; simpl; done.
Qed.

Lemma last_timing_loop label get ns :
  hoare last_next (fun _ _ => True) (fun _ => True) (timing_loop label get ns)
    (fun _ => True)
    (fun s => exists ev : event G, s = Some ev /\ is_call ev = true).
Proof.
  apply (hoare_for_each last_next (fun _ _ => True) (fun _ _ => True)).
  intros pre x post _.
  apply (hoare_trial generate compute loops repeat last_next (fun _ _ => True)
           label get x (fun _ => True) (fun _ _ => True) (fun _ _ _ => True));
    intros; try done.
  repeat split; by eexists.
Qed.

(** X1: the notebook starts the timer only when it is stopped and stops it
    only when it runs; it calls its collaborators only while the timer
    runs and prints only while it does not; and a run of the notebook
    raises exactly when it ends inside a timed run, and then its last
    event is the collaborator call that raised. *)
Theorem failure_inside_timed_run (w : W) :
  accepted timer_next timer_allowed false (trace_of (notebook w))
  /\ final timer_next false (trace_of (notebook w))
     = match outcome_of (notebook w) with
       | Ok _ => false
       | Raised _ => true
       end
  /\ match outcome_of (notebook w) with
     | Ok _ => True
     | Raised _ =>
         exists ev, last_event (trace_of (notebook w)) = Some ev /\ is_call ev = true
     end.
Proof.
  assert (hoare timer_next timer_allowed (eq false) notebook (eq false) (eq true)) as Ht.
  { eapply hoare_bind; [apply timer_timing_loop|]. intros _. apply timer_timing_loop. }
  assert (hoare last_next (fun _ _ => True) (fun _ => True) notebook (fun _ => True)
            (fun s => exists ev : event G, s = Some ev /\ is_call ev = true)) as Hl.
  { eapply hoare_bind; [apply last_timing_loop|]. intros _. apply last_timing_loop. }
  destruct (hoare_run _ _ _ _ _ _ w false Ht eq_refl) as [Ha Hf].
  destruct (hoare_run _ _ _ _ _ _ w None Hl I) as [_ Hlast].
  split; [exact Ha|].
  destruct (outcome_of (notebook w)); split; done.
Qed.

Lemma graph_timing_loop label get ns :
  hoare graph_next graph_allowed (eq false) (timing_loop label get ns)
    (eq false) (fun _ => True).
Proof.
  apply (hoare_for_each graph_next graph_allowed (fun _ => eq false)).
  intros pre x post _.
  apply (hoare_trial generate compute loops repeat graph_next graph_allowed
           label get x (eq false) (fun _ => eq false) (fun _ _ => eq false));
    intros; subst; simpl; done.
Qed.

(** X2: in every run of the notebook a graph is built only when no built
    graph is waiting, and [compute] is called only right after a graph is
    built, with nothing printed or timed in between.  With the
    collaborators recording what they return and what they are given,
    which changes nothing in the run, the record shows that every array
    computed is the second element of the tuple built by the call just
    before it: no graph is computed twice or kept from one repetition,
    trial or cell to the next; and a run that returns leaves no built
    graph uncomputed. *)
Theorem graph_built_for_each_compute (w : W) :
  accepted graph_next graph_allowed false (trace_of (notebook w))
  /\ erase (notebook' (w, [])) = notebook w
  /\ fresh_graphs None (record_of (notebook' (w, [])))
  /\ match outcome_of (notebook w) with
     | Ok _ =>
         final graph_next false (trace_of (notebook w)) = false
         /\ waiting None (record_of (notebook' (w, []))) = None
     | Raised _ => True
     end.
Proof.
  assert (hoare graph_next graph_allowed (eq false) notebook (eq false) (fun _ => True))
    as Hg.
  { eapply hoare_bind; [apply graph_timing_loop|]. intros _. apply graph_timing_loop. }
  destruct (hoare_run _ _ _ _ _ _ w false Hg eq_refl) as [Ha Hf].
  assert (erase (notebook' (w, [])) = notebook w) as Ht
    by apply (transparent_notebook generate compute dask_threaded_get
                dask_multiprocessing_get loops repeat (w, [])).
  pose proof (keeps_notebook generate compute dask_threaded_get
                dask_multiprocessing_get loops repeat (w, [])) as Hk.
  split; [exact Ha|]. split; [exact Ht|].
  unfold outcome_of in *. rewrite <- Ht in Hf |- *. clear Ht.
  unfold record_of, erase in *. cbn [fst snd] in *.
  destruct (notebook' (w, [])) as [[[u|e] [w1 l1]] t1]; cbn [fst snd] in *.
  - destruct Hk as [Hfresh Hw]; [by split|]. done.
  - split; [|done]. by apply Hk.
Qed.

Lemma label_timing_loop label kind get ns :
  kind_of_label label = Some kind ->
  get = getter dask_threaded_get dask_multiprocessing_get kind ->
  hoare label_next (label_allowed dask_threaded_get dask_multiprocessing_get)
    (fun _ => True) (timing_loop label get ns) (fun _ => True) (fun _ => True).
Proof.
  intros Hk Hget.
  apply (hoare_for_each label_next
           (label_allowed dask_threaded_get dask_multiprocessing_get)
           (fun _ _ => True)).
  intros pre x post _.
  apply (hoare_trial generate compute loops repeat label_next
           (label_allowed dask_threaded_get dask_multiprocessing_get)
           label get x (fun _ => True)
           (fun _ s => s = Some (kind, x)) (fun _ _ s => s = Some (kind, x)));
    intros; subst; simpl; try done.
  - by rewrite Hk.
  - repeat split; try done. by exists kind.
Qed.

(** X3: every call of [compute] in a run of the notebook passes the worker
    count of the label line printed last before it, and the scheduler of
    the backend that line names: [dask.threaded.get] under a thread(s)
    line, [dask.multiprocessing.get] under a process(es) line; and no
    collaborator is called before a label line is printed. *)
Theorem compute_matches_label (w : W) :
  accepted label_next (label_allowed dask_threaded_get dask_multiprocessing_get)
    None (trace_of (notebook w)).
Proof.
  assert (hoare label_next (label_allowed dask_threaded_get dask_multiprocessing_get)
            (fun _ => True) notebook (fun _ => True) (fun _ => True)) as Hl.
  { eapply hoare_bind; [by apply (label_timing_loop _ THREADED)|]. intros _.
    by apply (label_timing_loop _ MULTIPROCESS). }
  by destruct (hoare_run _ _ _ _ _ _ w None Hl I) as [Ha _].
Qed.



Lemma printed_app (t t' : list (event G)) : printed (t ++ t') = printed t ++ printed t'.
Proof.
  induction t as [|ev t IH]; simpl; [done|].
  destruct ev; simpl; by rewrite ?IH.
Qed.

Lemma printed_quiet (t : list (event G)) : forallb is_quiet t = true -> printed t = [].
Proof.
  induction t as [|ev t IH]; [done|]. simpl.
  intros H. apply andb_prop in H as [Hev Ht].
  destruct ev; try discriminate Hev; by apply IH.
Qed.

Lemma printed_trial_trace label get n :
  printed (trial_trace loops repeat label get n : list (event G))
  = [print_line [PyInt n; PyStr label]].
Proof.
  unfold trial_trace. cbn [printed]. rewrite printed_app.
  by rewrite printed_quiet by apply is_quiet_runs_trace.
Qed.

Lemma printed_failed_trial_trace label get n done (t : list (event G)) :
  forallb is_call t = true ->
  printed (failed_trial_trace label get n done t)
  = [print_line [PyInt n; PyStr label]].
Proof.
  intros Ht. unfold failed_trial_trace. cbn [printed]. rewrite printed_app.
  rewrite printed_quiet by apply is_quiet_runs_trace.
  cbn [printed app]. by rewrite printed_quiet by by apply is_quiet_calls.
Qed.

Lemma printed_trial_traces label get ns :
  printed (concat (map (trial_trace loops repeat label get) ns) : list (event G))
  = map (fun n => print_line [PyInt n; PyStr label]) ns.
Proof.
  induction ns as [|n ns IH]; [done|].
  cbn [map concat]. by rewrite printed_app, IH, printed_trial_trace.
Qed.

(** The lines a timing loop prints: one per trial begun. *)
Lemma printed_timing_loop label get ns w :
  match timing_loop label get ns w with
  | (Ok _, _, t) => printed t = map (fun n => print_line [PyInt n; PyStr label]) ns
  | (Raised _, _, t) =>
      exists pre x post,
        ns = pre ++ x :: post
        /\ printed t = map (fun n => print_line [PyInt n; PyStr label]) (pre ++ [x])
  end.
Proof.
  pose proof (timing_loop_yields generate compute loops repeat label get ns w) as H.
  destruct (timing_loop label get ns w) as [[[u|e] w1] t].
  - subst t. apply printed_trial_traces.
  - destruct H as (pre & x & post & done & number & rest & t' & -> & _ & Hc & ->).
    exists pre, x, post. split; [done|].
    rewrite printed_app, printed_trial_traces, printed_failed_trial_trace by done.
    by rewrite map_app.
Qed.

(** X5: the label lines a run of the notebook prints are an initial part
    of the eight label lines stored in the notebook's output, in their
    order; a run that returns prints all eight, and a run that raises has
    printed at least the first. *)
Theorem printed_labels_recorded (w : W) :
  printed (trace_of (notebook w)) `prefix_of` recorded_labels
  /\ match outcome_of (notebook w) with
     | Ok _ => printed (trace_of (notebook w)) = recorded_labels
     | Raised _ => 0 < length (printed (trace_of (notebook w)))
     end.
Proof.
  assert (recorded_labels
          = map (fun n => print_line [PyInt n; PyStr "thread(s)"]) worker_counts
            ++ map (fun n => print_line [PyInt n; PyStr "process(es)"]) worker_counts)
    as Hrec by (vm_compute; reflexivity).
  unfold notebook, threaded_cell, multiprocessing_cell, bind, trace_of, outcome_of.
  pose proof (printed_timing_loop "thread(s)" dask_threaded_get worker_counts w) as H1.
  destruct (timing_loop "thread(s)" dask_threaded_get worker_counts w)
    as [[[u|e] w1] t1].
  - pose proof (printed_timing_loop "process(es)" dask_multiprocessing_get
                  worker_counts w1) as H2.
    destruct (timing_loop "process(es)" dask_multiprocessing_get worker_counts w1)
      as [[[u'|e] w2] t2]; simpl; rewrite printed_app, H1.
    + rewrite H2. split; [by rewrite Hrec|done].
    + destruct H2 as (pre & x & post & Hns & ->). split.
      * rewrite Hrec. apply prefix_app. rewrite Hns.
        exists (map (fun n => print_line [PyInt n; PyStr "process(es)"]) post).
        by rewrite <- map_app, <- app_assoc.
      * rewrite length_app, !length_map, length_app. simpl. lia.
  - destruct H1 as (pre & x & post & Hns & Hpr). simpl. rewrite Hpr. split.
    + rewrite Hrec. rewrite Hns at 1.
      exists (map (fun n => print_line [PyInt n; PyStr "thread(s)"]) post
              ++ map (fun n => print_line [PyInt n; PyStr "process(es)"]) worker_counts).
      rewrite app_assoc. f_equal. by rewrite <- map_app, <- app_assoc.
    + rewrite length_map, length_app. simpl. lia.
Qed.

End NotebookProperties.

(** The simulated run in which nothing raises builds and computes 32
    graphs; the one in which a worker fails in the fifth call stops
    there. *)
Example call_counts_simulated :
  call_counts (trace_of (notebook sim_generate (sim_compute None) ThreadedGet
                           MultiprocessingGet sim_loops sim_repeat 0))
  = (32, 32)
  /\ call_counts (trace_of (notebook sim_generate (sim_compute (Some 4)) ThreadedGet
                              MultiprocessingGet sim_loops sim_repeat 0))
     = (5, 5)
  /\ final timer_next false
       (trace_of (notebook sim_generate (sim_compute (Some 4)) ThreadedGet
                    MultiprocessingGet sim_loops sim_repeat 0))
     = true.
Proof. repeat split; vm_compute; reflexivity. Qed.

(** The record of one simulated trial: four tuples built, the response of
    each computed right after. *)
Example record_simulated :
  record_of (trial (recording_generate sim_generate) (recording_compute (sim_compute None))
               sim_loops sim_repeat "thread(s)" ThreadedGet 8 (0, []))
  = [Built (Microstructure, Response); Computed Response;
     Built (Microstructure, Response); Computed Response;
     Built (Microstructure, Response); Computed Response;
     Built (Microstructure, Response); Computed Response].
Proof. vm_compute. reflexivity. Qed.
